(** * lockit-signup: signup, resend and e-mail verification handlers

    A shallow embedding of [src/index.js].  The three request handlers
    ([postSignup], [postSignupResend], [getSignupToken]) are written in
    continuation-passing style, exactly as the JavaScript nests its
    callbacks; the collaborators they call (the storage adapter, the mailer,
    the clock and the uuid generator) are interpreted by [run] against an
    explicit [World]. *)

From Stdlib Require Import String Ascii List Bool Arith ZArith Lia.
Import ListNotations.

Local Open Scope string_scope.
Local Open Scope bool_scope.

Set Implicit Arguments.

(* ================================================================== *)
(** * Text *)
(* ================================================================== *)

(** Request text is a [string] of 8-bit code units.  [code_unit c] is the
    code unit of [c]. *)
Definition code_unit (c : ascii) : nat := nat_of_ascii c.

(** [between lo hi c]: the character range [lo-hi] of a character class. *)
Definition between (lo hi c : ascii) : bool :=
  Nat.leb (code_unit lo) (code_unit c) && Nat.leb (code_unit c) (code_unit hi).

(** [one_of set c]: [c] is one of the characters listed in [set]. *)
Fixpoint one_of (set : string) (c : ascii) : bool :=
  match set with
  | EmptyString => false
  | String x set' => Ascii.eqb x c || one_of set' c
  end.

Fixpoint all (p : ascii -> bool) (s : string) : bool :=
  match s with
  | EmptyString => true
  | String c s' => p c && all p s'
  end.

Definition lower_letter (c : ascii) : bool := between "a" "z" c.
Definition upper_letter (c : ascii) : bool := between "A" "Z" c.
Definition digit (c : ascii) : bool := between "0" "9" c.
Definition ascii_letter (c : ascii) : bool := lower_letter c || upper_letter c.

(** ** [String.prototype.toLowerCase]

    On 8-bit code units the upper-case characters are [A-Z] and the Latin-1
    letters U+00C0..U+00DE without the multiplication sign U+00D7; each maps
    to the code unit 32 above it. *)
Definition has_lower_form (c : ascii) : bool :=
  upper_letter c
  || (Nat.leb 192 (code_unit c) && Nat.leb (code_unit c) 222
      && negb (Nat.eqb (code_unit c) 215)).

Definition lower_char (c : ascii) : ascii :=
  if has_lower_form c then ascii_of_nat (code_unit c + 32) else c.

Fixpoint toLowerCase (s : string) : string :=
  match s with
  | EmptyString => EmptyString
  | String c s' => String (lower_char c) (toLowerCase s')
  end.

(** ** [encodeURIComponent]

    Every character except [A-Z a-z 0-9 - _ . ! ~ * ' ( )] is replaced by
    the percent-escapes of its UTF-8 bytes, written with upper-case
    hexadecimal digits. *)
Definition unreserved (c : ascii) : bool :=
  ascii_letter c || digit c || one_of "-_.!~*'()" c.

Definition hex_digit (n : nat) : ascii :=
  if Nat.ltb n 10 then ascii_of_nat (48 + n) else ascii_of_nat (55 + n).

Definition percent (byte : nat) : string :=
  String "%" (String (hex_digit (byte / 16)) (String (hex_digit (byte mod 16)) "")).

Definition utf8_escape (c : ascii) : string :=
  let n := code_unit c in
  if Nat.ltb n 128 then percent n
  else percent (192 + n / 64) ++ percent (128 + n mod 64).

Fixpoint encodeURIComponent (s : string) : string :=
  match s with
  | EmptyString => EmptyString
  | String c s' =>
      (if unreserved c then String c "" else utf8_escape c)
      ++ encodeURIComponent s'
  end.

(** ** [String.prototype.charAt] *)
Definition charAt (n : nat) (s : string) : string :=
  match String.get n s with
  | Some c => String c ""
  | None => ""
  end.

(* ================================================================== *)
(** * Regular expressions *)
(* ================================================================== *)

(** The fragment of JavaScript regular expressions used by the handlers:
    character classes, concatenation, alternation, [+] and bounded
    repetition. *)
Inductive regex : Type :=
| Void
| Eps
| Class (p : ascii -> bool)
| Seq (r1 r2 : regex)
| Alt (r1 r2 : regex)
| Star (r : regex).

(** [r+] *)
Definition Plus (r : regex) : regex := Seq r (Star r).

(** [r{n}] *)
Fixpoint Rep (n : nat) (r : regex) : regex :=
  match n with
  | O => Eps
  | S n' => Seq r (Rep n' r)
  end.

(** [r{0,n}] *)
Fixpoint UpTo (n : nat) (r : regex) : regex :=
  match n with
  | O => Eps
  | S n' => Alt Eps (Seq r (UpTo n' r))
  end.

(** [r{lo,hi}] *)
Definition Range (lo hi : nat) (r : regex) : regex :=
  Seq (Rep lo r) (UpTo (hi - lo) r).

(** A literal character. *)
Definition Chr (c : ascii) : regex := Class (Ascii.eqb c).

(** The [i] flag on a character class: a character belongs to the class
    when it or one of its case forms does. *)
Definition upper_char (c : ascii) : ascii :=
  if lower_letter c then ascii_of_nat (code_unit c - 32) else c.

Definition ignoreCase (p : ascii -> bool) (c : ascii) : bool :=
  p c || p (lower_char c) || p (upper_char c).

(** Matching by Brzozowski derivatives. *)
Fixpoint nullable (r : regex) : bool :=
  match r with
  | Void => false
  | Eps => true
  | Class _ => false
  | Seq a b => nullable a && nullable b
  | Alt a b => nullable a || nullable b
  | Star _ => true
  end.

Fixpoint deriv (c : ascii) (r : regex) : regex :=
  match r with
  | Void => Void
  | Eps => Void
  | Class p => if p c then Eps else Void
  | Seq a b =>
      if nullable a then Alt (Seq (deriv c a) b) (deriv c b)
      else Seq (deriv c a) b
  | Alt a b => Alt (deriv c a) (deriv c b)
  | Star a => Seq (deriv c a) (Star a)
  end.

(** [matches r s]: the whole of [s] is a word of [r], which is what
    [/^r$/] accepts. *)
Fixpoint matches (r : regex) (s : string) : bool :=
  match s with
  | EmptyString => nullable r
  | String c s' => matches (deriv c r) s'
  end.

(** [search r s]: some substring of [s] is a word of [r], which is what
    a pattern without anchors accepts. *)
Definition anything : regex := Star (Class (fun _ => true)).

Definition search (r : regex) (s : string) : bool :=
  matches (Seq anything (Seq r anything)) s.

(** The words of a regular expression, as a relation. *)
Inductive Matches : regex -> string -> Prop :=
| M_Eps : Matches Eps ""
| M_Class p c : p c = true -> Matches (Class p) (String c "")
| M_Seq a b s1 s2 :
    Matches a s1 -> Matches b s2 -> Matches (Seq a b) (s1 ++ s2)
| M_AltL a b s : Matches a s -> Matches (Alt a b) s
| M_AltR a b s : Matches b s -> Matches (Alt a b) s
| M_Star0 a : Matches (Star a) ""
| M_StarS a s1 s2 :
    Matches a s1 -> Matches (Star a) s2 -> Matches (Star a) (s1 ++ s2).

(** ** The two patterns of [src/index.js] *)

(** [/^[A-Za-z0-9._%+-]+@[A-Za-z0-9.-]+\.[A-Za-z]{2,6}$/] *)
Definition EMAIL_REGEXP : regex :=
  Seq (Plus (Class (fun c => ascii_letter c || digit c || one_of "._%+-" c)))
 (Seq (Chr "@")
 (Seq (Plus (Class (fun c => ascii_letter c || digit c || one_of ".-" c)))
 (Seq (Chr ".")
      (Range 2 6 (Class ascii_letter))))).

(** [email.match(EMAIL_REGEXP)]: the pattern carries both anchors. *)
Definition email_match (email : string) : bool := matches EMAIL_REGEXP email.

(** [new RegExp('[0-9a-f]{22}|[0-9a-f]{8}-[0-9a-f]{4}-[0-9a-f]{4}-[0-9a-f]{4}-[0-9a-f]{12}', 'i')] *)
Definition hex_class : regex :=
  Class (ignoreCase (fun c => digit c || between "a" "f" c)).

Definition re : regex :=
  Alt (Rep 22 hex_class)
      (Seq (Rep 8 hex_class) (Seq (Chr "-")
      (Seq (Rep 4 hex_class) (Seq (Chr "-")
      (Seq (Rep 4 hex_class) (Seq (Chr "-")
      (Seq (Rep 4 hex_class) (Seq (Chr "-")
           (Rep 12 hex_class))))))))).

(** [re.test(token)]: the pattern carries no anchor. *)
Definition re_test (token : string) : bool := search re token.

(* ================================================================== *)
(** * Data *)
(* ================================================================== *)

(** An error object [{code: '...'}]. *)
Record Error : Type := { code : string }.

(** An infrastructure error handed to a callback as [err]. *)
Definition Err : Type := string.

(** The user object the adapter hands out.  A deleted or never assigned
    property is [None]; dates are milliseconds since the epoch. *)
Module User.

Record t : Type := mk {
  name : string;
  email : string;
  password : string;
  type : string;
  emailVerified : bool;
  emailVerificationTimestamp : option Z;
  signupToken : option string;
  signupTokenExpires : option Z
}.

(** [user.signupToken = token] *)
Definition set_signupToken (token : string) (u : t) : t :=
  mk (name u) (email u) (password u) (type u) (emailVerified u)
     (emailVerificationTimestamp u) (Some token) (signupTokenExpires u).

(** [user.signupTokenExpires = date] *)
Definition set_signupTokenExpires (date : Z) (u : t) : t :=
  mk (name u) (email u) (password u) (type u) (emailVerified u)
     (emailVerificationTimestamp u) (signupToken u) (Some date).

(** [user.emailVerificationTimestamp = date] *)
Definition set_emailVerificationTimestamp (date : Z) (u : t) : t :=
  mk (name u) (email u) (password u) (type u) (emailVerified u)
     (Some date) (signupToken u) (signupTokenExpires u).

(** [user.emailVerified = b] *)
Definition set_emailVerified (b : bool) (u : t) : t :=
  mk (name u) (email u) (password u) (type u) b
     (emailVerificationTimestamp u) (signupToken u) (signupTokenExpires u).

(** [delete user.signupToken] *)
Definition delete_signupToken (u : t) : t :=
  mk (name u) (email u) (password u) (type u) (emailVerified u)
     (emailVerificationTimestamp u) None (signupTokenExpires u).

(** [delete user.signupTokenExpires] *)
Definition delete_signupTokenExpires (u : t) : t :=
  mk (name u) (email u) (password u) (type u) (emailVerified u)
     (emailVerificationTimestamp u) (signupToken u) None.

End User.

(** [config]: the properties the handlers read.  [tokenExpiration] is the
    number [ms(config.signup.tokenExpiration)]; a view is [None] when the
    configuration names none. *)
Record Config : Type := {
  rest : bool;
  views_signup : option string;
  views_signedUp : option string;
  views_resend : option string;
  views_linkExpired : option string;
  views_verified : option string;
  tokenExpiration : Z;
  handleResponse : bool
}.

(** [req]: [req.body.*] is [None] when the property is undefined;
    [params_token] is [req.params.token] and [app_views] is
    [req.app.get('views')]. *)
Record Request : Type := {
  body_name : option string;
  body_email : option string;
  body_password : option string;
  body_type : option string;
  params_token : string;
  app_views : string
}.

(** A template: one named by the configuration, or the built-in one that
    [join(view)] finds under [views/]. *)
Inductive View : Type :=
| custom (path : string)
| join (view : string).

(** [configured || join(view)]: an undefined or empty name is falsy. *)
Definition or_join (configured : option string) (view : string) : View :=
  match configured with
  | Some path => if String.eqb path "" then join view else custom path
  | None => join view
  end.

(** The second argument of [res.render]. *)
Record Locals : Type := {
  title : string;
  error : option Error;
  basedir : string;
  locals_name : option string;
  locals_email : option string
}.

(** The first argument of [adapter.find]. *)
Inductive Field : Type :=
| by_name
| by_email
| by_signupToken.

(** [!v] on request text: undefined and the empty string are falsy. *)
Definition falsy (v : option string) : bool :=
  match v with
  | None => true
  | Some s => String.eqb s ""
  end.

(** [new Date(expires) < new Date()] with the right-hand date read as
    [now]: a missing [expires] gives an invalid date, which compares false
    with everything. *)
Definition Date_lt (expires : option Z) (now : Z) : bool :=
  match expires with
  | Some e => Z.ltb e now
  | None => false
  end.

(* ================================================================== *)
(** * Handlers *)
(* ================================================================== *)

(** What a handler does, as a tree: a call to a collaborator takes the
    JavaScript callback as its continuation ([inl err] is a call of the
    callback with an error, [inr v] one with [null] and a value); a response
    ends the handler. *)
Inductive Handler : Type :=
| adapter_find (field : Field) (value : string)
               (callback : Err + option User.t -> Handler)
| adapter_save (name email password type : string)
               (callback : Err + User.t -> Handler)
| adapter_update (user : User.t) (callback : Err + User.t -> Handler)
| mail_taken (name email : string) (callback : option Err -> Handler)
| mail_signup (name email : string) (token : option string)
              (callback : option Err -> Handler)
| mail_resend (name email token : string) (callback : option Err -> Handler)
| uuid_v4 (k : string -> Handler)
| new_Date (k : Z -> Handler)
| emit (event : string) (user : User.t) (k : Handler)
| res_status (status : Z) (k : Handler)
| res_json (status : Z) (error : Error)
| res_send (status : Z)
| res_render (view : View) (locals : Locals)
| next (err : option Err)
| throw_TypeError
| done.

(** The text of a request property that an earlier check has found truthy. *)
Definition str (v : option string) : string :=
  match v with
  | Some s => s
  | None => ""
  end.

(** The value of [error] after the input checks of [postSignup]. *)
Definition signup_error (name email password type : option string)
  : option Error :=
  if falsy name || falsy email || falsy password then
    Some {| code := "signup.01" |}
  else if negb (String.eqb (str name) (encodeURIComponent (str name))) then
    Some {| code := "signup.02" |}
  else if negb (String.eqb (str name) (toLowerCase (str name))) then
    Some {| code := "signup.03" |}
  else if negb (search (Class (between "a" "z")) (charAt 0 (str name))) then
    Some {| code := "signup.04" |}
  else if negb (email_match (str email)) then
    Some {| code := "signup.05" |}
  else if falsy type then
    Some {| code := "signup.06" |}
  else None.

(** The same, on the request. *)
Definition signup_error_of (req : Request) : option Error :=
  signup_error (body_name req) (body_email req) (body_password req)
               (body_type req).

(** POST /signup *)
Definition postSignup (config : Config) (req : Request) : Handler :=
  let name := body_name req in
  let email := body_email req in
  let password := body_password req in
  let type := body_type req in
  let error := signup_error name email password type in
  let errorView := or_join (views_signup config) "get-signup" in
  match error with
  | Some error =>
      if rest config then res_json 403 error
      else
        res_status 403
          (res_render errorView
             {| title := "Sign up"; error := Some error;
                basedir := app_views req;
                locals_name := name; locals_email := email |})
  | None =>
      adapter_find by_name (str name) (fun found =>
        match found with
        | inl err => next (Some err)
        | inr (Some user) =>
            let error := {| code := "signup.07" |} in
            if rest config then res_json 403 error
            else
              res_status 403
                (res_render errorView
                   {| title := "Sign up"; error := Some error;
                      basedir := app_views req;
                      locals_name := name; locals_email := email |})
        | inr None =>
            adapter_find by_email (str email) (fun found =>
              match found with
              | inl err => next (Some err)
              | inr user =>
                  let successView :=
                    or_join (views_signedUp config) "post-signup" in
                  match user with
                  | Some user =>
                      mail_taken (User.name user) (User.email user) (fun err =>
                        match err with
                        | Some err => next (Some err)
                        | None =>
                            if rest config then res_send 204
                            else
                              res_render successView
                                {| title := "Sign up - Email sent";
                                   error := None;
                                   basedir := app_views req;
                                   locals_name := None;
                                   locals_email := None |}
                        end)
                  | None =>
                      adapter_save (str name) (str email) (str password)
                                   (str type) (fun saved =>
                        match saved with
                        | inl err => next (Some err)
                        | inr user =>
                            mail_signup (User.name user) (User.email user)
                                        (User.signupToken user) (fun err =>
                              match err with
                              | Some err => next (Some err)
                              | None =>
                                  emit "signup::post" user
                                    (if rest config then res_send 204
                                     else
                                       res_render successView
                                         {| title := "Sign up - Email sent";
                                            error := None;
                                            basedir := app_views req;
                                            locals_name := None;
                                            locals_email := None |})
                              end)
                        end)
                  end
              end)
        end)
  end.

(** The value of [error] after the input check of [postSignupResend]. *)
Definition resend_error (email : option string) : option Error :=
  if falsy email || negb (email_match (str email)) then
    Some {| code := "signup.08" |}
  else None.

(** POST /signup/resend-verification *)
Definition postSignupResend (config : Config) (req : Request) : Handler :=
  let email := body_email req in
  let error := resend_error email in
  match error with
  | Some error =>
      if rest config then res_json 403 error
      else
        let errorView := or_join (views_resend config) "resend-verification" in
        res_status 403
          (res_render errorView
             {| title := "Resend verification email"; error := Some error;
                basedir := app_views req;
                locals_name := None; locals_email := None |})
  | None =>
      adapter_find by_email (str email) (fun found =>
        match found with
        | inl err => next (Some err)
        | inr user =>
            let successView := or_join (views_signedUp config) "post-signup" in
            (* if (!user) { if (config.rest) return ... } *)
            if match user with None => rest config | Some _ => false end then
              res_json 403 {| code := "signup.10" |}
            else
              (* [user.emailVerified] is read next, whatever [user] is *)
              match user with
              | None => throw_TypeError
              | Some user =>
                  (* if (user.emailVerified) { if (config.rest) return ... } *)
                  if User.emailVerified user && rest config then
                    res_json 403 {| code := "signup.11" |}
                  else
                    uuid_v4 (fun token =>
                    let user := User.set_signupToken token user in
                    let timespan := tokenExpiration config in
                    new_Date (fun moment =>
                    let user :=
                      User.set_signupTokenExpires (moment + timespan) user in
                    adapter_update user (fun updated =>
                      match updated with
                      | inl err => next (Some err)
                      | inr user =>
                          mail_resend (User.name user) (str email) token
                            (fun err =>
                              match err with
                              | Some err => next (Some err)
                              | None =>
                                  if rest config then res_send 204
                                  else
                                    res_render successView
                                      {| title := "Sign up - Email sent";
                                         error := None;
                                         basedir := app_views req;
                                         locals_name := None;
                                         locals_email := None |}
                              end)
                      end)))
              end
        end)
  end.

(** GET /signup/:token *)
Definition getSignupToken (config : Config) (req : Request) : Handler :=
  let token := params_token req in
  if negb (re_test token) then next None
  else
    adapter_find by_signupToken token (fun found =>
      match found with
      | inl err => next (Some err)
      | inr None => next None
      | inr (Some user) =>
          new_Date (fun now =>
          if Date_lt (User.signupTokenExpires user) now then
            let user := User.delete_signupToken user in
            adapter_update user (fun updated =>
              match updated with
              | inl err => next (Some err)
              | inr user =>
                  if rest config then res_json 403 {| code := "signup.09" |}
                  else
                    let expiredView :=
                      or_join (views_linkExpired config) "link-expired" in
                    res_render expiredView
                      {| title := "Sign up - Email verification link expired";
                         error := None;
                         basedir := app_views req;
                         locals_name := None; locals_email := None |}
              end)
          else
            new_Date (fun now =>
            let user := User.set_emailVerificationTimestamp now user in
            let user := User.set_emailVerified true user in
            let user := User.delete_signupToken user in
            let user := User.delete_signupTokenExpires user in
            adapter_update user (fun updated =>
              match updated with
              | inl err => next (Some err)
              | inr user =>
                  emit "signup" user
                    (if handleResponse config then
                       if rest config then res_send 204
                       else
                         let view :=
                           or_join (views_verified config)
                                   "mail-verification-success" in
                         res_render view
                           {| title := "Sign up success";
                              error := None;
                              basedir := app_views req;
                              locals_name := None; locals_email := None |}
                     else done)
              end)))
      end).

(* ================================================================== *)
(** * Collaborators *)
(* ================================================================== *)

(** What a handler run lets the outside see, in order. *)
Inductive Event : Type :=
| find_called (field : Field) (value : string)
| save_called (name email password type : string)
| update_called (user : User.t)
| taken_mailed (name email : string)
| signup_mailed (name email : string) (token : option string)
| resend_mailed (name email token : string)
| emitted (event : string) (user : User.t)
| status_set (status : Z)
| json_sent (status : Z) (error : Error)
| sent (status : Z)
| rendered (view : View) (locals : Locals)
| next_called (err : option Err)
| TypeError_thrown.

(** The state of everything outside the handlers: the stored accounts
    (oldest first), the clock with the number of readings taken, the uuid
    generator with the number of uuids drawn, and the plan of
    infrastructure failures with the number of adapter and mailer calls
    made ([faults w n = Some err] makes call number [n] fail with [err]). *)
Record World : Type := {
  accounts : list User.t;
  clock : nat -> Z;
  reads : nat;
  uuids : nat -> string;
  issued : nat;
  faults : nat -> option Err;
  calls : nat
}.

Definition store (accounts' : list User.t) (w : World) : World :=
  {| accounts := accounts'; clock := clock w; reads := reads w;
     uuids := uuids w; issued := issued w;
     faults := faults w; calls := calls w |}.

Definition read (w : World) : World :=
  {| accounts := accounts w; clock := clock w; reads := S (reads w);
     uuids := uuids w; issued := issued w;
     faults := faults w; calls := calls w |}.

Definition draw (w : World) : World :=
  {| accounts := accounts w; clock := clock w; reads := reads w;
     uuids := uuids w; issued := S (issued w);
     faults := faults w; calls := calls w |}.

Definition call (w : World) : World :=
  {| accounts := accounts w; clock := clock w; reads := reads w;
     uuids := uuids w; issued := issued w;
     faults := faults w; calls := S (calls w) |}.

(** The current reading of the clock, the next uuid, the fate of the next
    call. *)
Definition now (w : World) : Z := clock w (reads w).
Definition uuid (w : World) : string := uuids w (issued w).
Definition fault (w : World) : option Err := faults w (calls w).

(** [field_is field value u]: the account [u] has [value] in [field]. *)
Definition field_is (field : Field) (value : string) (u : User.t) : bool :=
  match field with
  | by_name => String.eqb (User.name u) value
  | by_email => String.eqb (User.email u) value
  | by_signupToken =>
      match User.signupToken u with
      | Some token => String.eqb token value
      | None => false
      end
  end.

(** Modelled from the spec: [findBy] of the Account Repository Contract of
    section 6 (the [adapter.find] of the handlers), whose adapter package
    lies outside [src/].  It returns the oldest account whose field has the
    value, or nothing. *)
Definition findBy (field : Field) (value : string) (stored : list User.t)
  : option User.t :=
  List.find (field_is field value) stored.

(** Modelled from the spec: [save] of the Account Repository Contract with
    the Token Issuer of section 4.2, both outside [src/].  The new account
    is unverified and carries a fresh token that expires the configured
    lifetime from now. *)
Definition save (config : Config) (name email password type : string)
                (w : World) : User.t :=
  User.mk name email password type false None
          (Some (uuid w)) (Some (now w + tokenExpiration config)%Z).

(** Modelled from the spec: [update] of the Account Repository Contract,
    outside [src/].  The account is identified by its immutable unique
    name; the stored fields become those of the given object. *)
Definition update (user : User.t) (stored : list User.t) : list User.t :=
  List.map
    (fun a => if String.eqb (User.name a) (User.name user) then user else a)
    stored.

(** [after e r]: event [e], then the run [r]. *)
Definition after (e : Event) (r : World * list Event) : World * list Event :=
  (fst r, e :: snd r).

(** Running a handler in a world.  A call to the adapter or to the mailer
    fails when the world says so and otherwise does what the contracts of
    section 6 say; [uuid.v4()] draws the next uuid and [new Date()] (or
    [moment()]) takes the next reading of the clock. *)
Fixpoint run (config : Config) (h : Handler) (w : World)
  : World * list Event :=
  match h with
  | adapter_find field value callback =>
      after (find_called field value)
        (match fault w with
         | Some err => run config (callback (inl err)) (call w)
         | None =>
             run config (callback (inr (findBy field value (accounts w))))
                 (call w)
         end)
  | adapter_save name email password type callback =>
      after (save_called name email password type)
        (match fault w with
         | Some err => run config (callback (inl err)) (call w)
         | None =>
             let user := save config name email password type w in
             run config (callback (inr user))
                 (store (accounts w ++ [user]) (read (draw (call w))))
         end)
  | adapter_update user callback =>
      after (update_called user)
        (match fault w with
         | Some err => run config (callback (inl err)) (call w)
         | None =>
             run config (callback (inr user))
                 (store (update user (accounts w)) (call w))
         end)
  | mail_taken name email callback =>
      after (taken_mailed name email)
        (run config (callback (fault w)) (call w))
  | mail_signup name email token callback =>
      after (signup_mailed name email token)
        (run config (callback (fault w)) (call w))
  | mail_resend name email token callback =>
      after (resend_mailed name email token)
        (run config (callback (fault w)) (call w))
  | uuid_v4 k => run config (k (uuid w)) (draw w)
  | new_Date k => run config (k (now w)) (read w)
  | emit event user k => after (emitted event user) (run config k w)
  | res_status status k => after (status_set status) (run config k w)
  | res_json status error => (w, [json_sent status error])
  | res_send status => (w, [sent status])
  | res_render view locals => (w, [rendered view locals])
  | next err => (w, [next_called err])
  | throw_TypeError => (w, [TypeError_thrown])
  | done => (w, [])
  end.

(* ================================================================== *)
(** * Observations on a run *)
(* ================================================================== *)

(** No adapter or mailer call of the world fails. *)
Definition no_faults (w : World) : Prop := forall n, faults w n = None.

(** The calls to the adapter in a trace. *)
Definition is_adapter_call (e : Event) : bool :=
  match e with
  | find_called _ _ | save_called _ _ _ _ | update_called _ => true
  | _ => false
  end.

Definition adapter_calls (trace : list Event) : list Event :=
  List.filter is_adapter_call trace.

(** What the caller of the route gets to see: what was done to [res], and
    the calls of [next]. *)
Definition is_response (e : Event) : bool :=
  match e with
  | status_set _ | json_sent _ _ | sent _ | rendered _ _ | next_called _ => true
  | _ => false
  end.

Definition response (trace : list Event) : list Event :=
  List.filter is_response trace.

(** Everything else: adapter calls, mails, emitted events, exceptions. *)
Definition effects (trace : list Event) : list Event :=
  List.filter (fun e => negb (is_response e)) trace.

(** [config] with another value of [config.signup.handleResponse]. *)
Definition with_handleResponse (b : bool) (config : Config) : Config :=
  {| rest := rest config;
     views_signup := views_signup config;
     views_signedUp := views_signedUp config;
     views_resend := views_resend config;
     views_linkExpired := views_linkExpired config;
     views_verified := views_verified config;
     tokenExpiration := tokenExpiration config;
     handleResponse := b |}.

(** The responses the handlers end with. *)
Definition success_response (config : Config) (req : Request) : list Event :=
  if rest config then [sent 204]
  else [rendered (or_join (views_signedUp config) "post-signup")
          {| title := "Sign up - Email sent"; error := None;
             basedir := app_views req;
             locals_name := None; locals_email := None |}].

Definition expired_response (config : Config) (req : Request) : list Event :=
  if rest config then [json_sent 403 {| code := "signup.09" |}]
  else [rendered (or_join (views_linkExpired config) "link-expired")
          {| title := "Sign up - Email verification link expired";
             error := None; basedir := app_views req;
             locals_name := None; locals_email := None |}].

Definition verified_response (config : Config) (req : Request) : list Event :=
  if handleResponse config then
    if rest config then [sent 204]
    else [rendered (or_join (views_verified config) "mail-verification-success")
            {| title := "Sign up success"; error := None;
               basedir := app_views req;
               locals_name := None; locals_email := None |}]
  else [].

Definition signup_error_response (config : Config) (req : Request)
                                 (e : Error) : list Event :=
  if rest config then [json_sent 403 e]
  else [status_set 403;
        rendered (or_join (views_signup config) "get-signup")
          {| title := "Sign up"; error := Some e;
             basedir := app_views req;
             locals_name := body_name req; locals_email := body_email req |}].

(** The account as the verified branch of [getSignupToken] leaves it, and
    as the expired branch leaves it. *)
Definition verified_at (date : Z) (user : User.t) : User.t :=
  User.delete_signupTokenExpires
    (User.delete_signupToken
       (User.set_emailVerified true
          (User.set_emailVerificationTimestamp date user))).

Definition reissued (token : string) (expires : Z) (user : User.t) : User.t :=
  User.set_signupTokenExpires expires (User.set_signupToken token user).

(** The co-presence invariant of the data model: [signupTokenExpires] is
    present exactly when [signupToken] is. *)
Definition token_fields_agree (u : User.t) : Prop :=
  User.signupToken u = None <-> User.signupTokenExpires u = None.

(* ================================================================== *)
(** * The specification's wording *)
(* ================================================================== *)

(** Section 4.1 in its words: six checks in a fixed order, each with its
    code; the first check that fails decides. *)
Definition present (v : option string) : bool := negb (falsy v).

Definition first_char_is (p : ascii -> bool) (s : string) : bool :=
  match s with
  | String c _ => p c
  | EmptyString => false
  end.

Definition signup_checks : list ((Request -> bool) * string) :=
  [ (fun r => present (body_name r) && present (body_email r)
              && present (body_password r), "signup.01");
    (fun r => String.eqb (str (body_name r))
                         (encodeURIComponent (str (body_name r))), "signup.02");
    (fun r => String.eqb (str (body_name r))
                         (toLowerCase (str (body_name r))), "signup.03");
    (fun r => first_char_is ascii_letter (str (body_name r)), "signup.04");
    (fun r => email_match (str (body_email r)), "signup.05");
    (fun r => present (body_type r), "signup.06") ].

Fixpoint first_failure (checks : list ((Request -> bool) * string))
                       (r : Request) : option Error :=
  match checks with
  | [] => None
  | (passes, c) :: checks' =>
      if passes r then first_failure checks' r else Some {| code := c |}
  end.

Definition validateSignup (r : Request) : option Error :=
  first_failure signup_checks r.

(** A hexadecimal digit, in either letter case. *)
Definition hexadecimal (c : ascii) : bool :=
  digit c || between "a" "f" c || between "A" "F" c.

(** [hex_group n s]: what follows the first [n] characters of [s], when
    these are hexadecimal digits. *)
Fixpoint hex_group (n : nat) (s : string) : option string :=
  match n, s with
  | O, _ => Some s
  | S n', String c s' => if hexadecimal c then hex_group n' s' else None
  | S _, EmptyString => None
  end.

(** [groups ns s]: [s] is made of groups of hexadecimal digits of the
    lengths [ns], with one dash between two groups, and of nothing else. *)
Fixpoint groups (ns : list nat) (s : string) : bool :=
  match ns with
  | [] => false
  | [n] => match hex_group n s with
           | Some EmptyString => true
           | _ => false
           end
  | n :: ns' =>
      match hex_group n s with
      | Some (String "-" s') => groups ns' s'
      | _ => false
      end
  end.

(** Section 4.5 step 1, read on the entire string: the string is a
    22-digit hexadecimal token, or a dashed 8-4-4-4-12 hexadecimal token. *)
Definition accepted_shape (token : string) : bool :=
  groups [22] token || groups [8; 4; 4; 4; 12] token.

(** The pattern of groups of hexadecimal digits joined by dashes; [re] is
    the alternative of two of them. *)
Fixpoint group_pattern (ns : list nat) : regex :=
  match ns with
  | [] => Void
  | [n] => Rep n hex_class
  | n :: ns' => Seq (Rep n hex_class) (Seq (Chr "-") (group_pattern ns'))
  end.

(* ================================================================== *)
(** * Sample data *)
(* ================================================================== *)

(** A REST configuration and one that renders views, with a token lifetime
    of one day. *)
Definition rest_config : Config :=
  {| rest := true;
     views_signup := None; views_signedUp := None; views_resend := None;
     views_linkExpired := None; views_verified := None;
     tokenExpiration := 86400000;
     handleResponse := true |}.

Definition html_config : Config :=
  {| rest := false;
     views_signup := None; views_signedUp := None; views_resend := None;
     views_linkExpired := None; views_verified := None;
     tokenExpiration := 86400000;
     handleResponse := true |}.

(** A world in which nothing fails: the clock reads 1000, 1001, ... and
    the generator hands out the uuids below. *)
Definition sample_uuids (n : nat) : string :=
  List.nth n ["110ec58a-a0f2-4ac4-8393-c866d813b8d1";
              "7d444840-9dc0-41d1-b245-5ffdce74fad2"]
           "e902893a-9d22-4c7e-a7b8-d6e313b71d9f".

Definition quiet (stored : list User.t) : World :=
  {| accounts := stored;
     clock := fun n => (1000 + Z.of_nat n)%Z; reads := 0;
     uuids := sample_uuids; issued := 0;
     faults := fun _ => None; calls := 0 |}.

(** An unverified account with a token that expires at [expires], and a
    verified one. *)
Definition bob_token : string := "6ec0bd7f-11c0-43da-975e-2a8ad9ebae0b".

Definition bob (expires : Z) : User.t :=
  User.mk "bob" "bob@example.com" "x" "user" false None
          (Some bob_token) (Some expires).

Definition alice : User.t :=
  User.mk "alice" "alice@example.com" "y" "user" true (Some 500%Z) None None.

Definition signup_request (name email : string) : Request :=
  {| body_name := Some name; body_email := Some email;
     body_password := Some "x"; body_type := Some "user";
     params_token := ""; app_views := "/app/views" |}.

Definition resend_request (email : string) : Request :=
  {| body_name := None; body_email := Some email;
     body_password := None; body_type := None;
     params_token := ""; app_views := "/app/views" |}.

Definition token_request (token : string) : Request :=
  {| body_name := None; body_email := None;
     body_password := None; body_type := None;
     params_token := token; app_views := "/app/views" |}.

(* ================================================================== *)
(** * The form pages *)
(* ================================================================== *)

(** GET /signup *)
Definition getSignup (config : Config) (req : Request) : Handler :=
  if rest config then next None
  else
    let view := or_join (views_signup config) "get-signup" in
    res_render view
      {| title := "Sign up"; error := None;
         basedir := app_views req;
         locals_name := None; locals_email := None |}.

(** GET /signup/resend-verification *)
Definition getSignupResend (config : Config) (req : Request) : Handler :=
  if rest config then next None
  else
    let view := or_join (views_resend config) "resend-verification" in
    res_render view
      {| title := "Resend verification email"; error := None;
         basedir := app_views req;
         locals_name := None; locals_email := None |}.

(* ================================================================== *)
(** * More observations *)
(* ================================================================== *)

(** The events that end a request: a body sent through [res], or a call of
    [next]. *)
Definition is_answer (e : Event) : bool :=
  match e with
  | json_sent _ _ | sent _ | rendered _ _ | next_called _ => true
  | _ => false
  end.

Definition answers (trace : list Event) : list Event :=
  List.filter is_answer trace.

(** The mails of a trace. *)
Definition is_mail (e : Event) : bool :=
  match e with
  | taken_mailed _ _ | signup_mailed _ _ _ | resend_mailed _ _ _ => true
  | _ => false
  end.

Definition mails (trace : list Event) : list Event :=
  List.filter is_mail trace.

(** The properties of an account that no handler assigns. *)
Definition identity (u : User.t) : string * string * string * string :=
  (User.name u, User.email u, User.password u, User.type u).

(** No two stored accounts share a name, and no two share an address. *)
Definition unique_accounts (stored : list User.t) : Prop :=
  NoDup (List.map User.name stored) /\ NoDup (List.map User.email stored).

(** Every verified stored account is without token and expiry. *)
Definition verified_without_token (stored : list User.t) : Prop :=
  forall a, In a stored -> User.emailVerified a = true ->
            User.signupToken a = None /\ User.signupTokenExpires a = None.

(** The answer of [postSignupResend] to a request that fails its check. *)
Definition resend_error_response (config : Config) (req : Request)
                                 (e : Error) : list Event :=
  if rest config then [json_sent 403 e]
  else [status_set 403;
        rendered (or_join (views_resend config) "resend-verification")
          {| title := "Resend verification email"; error := Some e;
             basedir := app_views req;
             locals_name := None; locals_email := None |}].

(** The characters of the three parts of an address that [EMAIL_REGEXP]
    accepts, and the characters of a name that [postSignup] accepts. *)
Definition local_char (c : ascii) : bool :=
  ascii_letter c || digit c || one_of "._%+-" c.

Definition domain_char (c : ascii) : bool :=
  ascii_letter c || digit c || one_of ".-" c.

Definition name_char (c : ascii) : bool :=
  lower_letter c || digit c || one_of "-_.!~*'()" c.

(** A world like [quiet stored] in which the call number [k] fails. *)
Definition failing_at (k : nat) (stored : list User.t) : World :=
  {| accounts := stored;
     clock := fun n => (1000 + Z.of_nat n)%Z; reads := 0;
     uuids := sample_uuids; issued := 0;
     faults := fun n => if Nat.eqb n k then Some "ECONNRESET" else None;
     calls := 0 |}.

(* ================================================================== *)
(** * Request text in full *)
(* ================================================================== *)

(** A JavaScript string is a sequence of UTF-16 code units, and a name sent
    in a request body may hold any of them, a surrogate without its partner
    included.  The input checks of [postSignup] are modelled here on such
    text; [of_string] takes the 8-bit text of the rest of the file into
    it. *)
Module UTF16.

Definition text : Type := list N.

Definition of_string (s : string) : text :=
  List.map N_of_ascii (list_ascii_of_string s).

(** The 8-bit string of a text, when all its code units are below 256. *)
Fixpoint to_string (t : text) : option string :=
  match t with
  | [] => Some EmptyString
  | u :: t' =>
      if N.ltb u 256 then option_map (String (ascii_of_N u)) (to_string t')
      else None
  end.

(** [a === b] on strings. *)
Fixpoint eqb (a b : text) : bool :=
  match a, b with
  | [], [] => true
  | u :: a', v :: b' => N.eqb u v && eqb a' b'
  | _, _ => false
  end.

(** [in_class p u]: the code unit [u] is one of the 8-bit characters of
    [p]. *)
Definition in_class (p : ascii -> bool) (u : N) : bool :=
  N.ltb u 256 && p (ascii_of_N u).

(** The surrogate code units: U+D800..U+DBFF lead, U+DC00..U+DFFF trail. *)
Definition lead_surrogate (u : N) : bool :=
  N.leb 55296 u && N.leb u 56319.

Definition trail_surrogate (u : N) : bool :=
  N.leb 56320 u && N.leb u 57343.

(** The code point of a surrogate pair. *)
Definition code_point (lead trail : N) : N :=
  ((lead - 55296) * 1024 + (trail - 56320) + 65536)%N.

(** The octets of the UTF-8 form of a code point. *)
Definition utf8 (v : N) : list N :=
  if N.ltb v 128 then [v]
  else if N.ltb v 2048 then [192 + v / 64; 128 + v mod 64]%N
  else if N.ltb v 65536 then
    [224 + v / 4096; 128 + (v / 64) mod 64; 128 + v mod 64]%N
  else
    [240 + v / 262144; 128 + (v / 4096) mod 64; 128 + (v / 64) mod 64;
     128 + v mod 64]%N.

Definition hex_digit (n : N) : N :=
  if N.ltb n 10 then (48 + n)%N else (55 + n)%N.

(** ["%XX"] *)
Definition percent (octet : N) : text :=
  [37%N; hex_digit (octet / 16); hex_digit (octet mod 16)].

Definition escape (v : N) : text :=
  List.flat_map percent (utf8 v).

(** [encodeURIComponent]: [None] when it throws [URIError], which it does
    on a trail surrogate that follows no lead surrogate and on a lead
    surrogate that no trail surrogate follows. *)
Fixpoint encodeURIComponent (t : text) : option text :=
  match t with
  | [] => Some []
  | u :: t' =>
      if in_class unreserved u then option_map (cons u) (encodeURIComponent t')
      else if trail_surrogate u then None
      else if lead_surrogate u then
        match t' with
        | v :: t'' =>
            if trail_surrogate v then
              option_map (app (escape (code_point u v)))
                         (encodeURIComponent t'')
            else None
        | [] => None
        end
      else option_map (app (escape u)) (encodeURIComponent t')
  end.

(** [String.prototype.isWellFormed]: no surrogate is without its partner. *)
Fixpoint well_formed (t : text) : bool :=
  match t with
  | [] => true
  | u :: t' =>
      if trail_surrogate u then false
      else if lead_surrogate u then
        match t' with
        | v :: t'' => trail_surrogate v && well_formed t''
        | [] => false
        end
      else well_formed t'
  end.

(** [String.prototype.toLowerCase] on one ASCII code unit, and on a text of
    ASCII characters. *)
Definition lower_unit (u : N) : N :=
  if N.leb 65 u && N.leb u 90 then (u + 32)%N else u.

Definition lower_ascii (t : text) : text := List.map lower_unit t.

(** [t.charAt(0)] *)
Definition charAt0 (t : text) : text :=
  match t with
  | u :: _ => [u]
  | [] => []
  end.

(** [t.match(/^r$/)] and [t.match(/r/)] for a pattern [r] whose classes
    hold 8-bit characters only: a text with a code unit above 255 has a
    character that no class of [r] accepts. *)
Definition matches (r : regex) (t : text) : bool :=
  match to_string t with
  | Some s => matches r s
  | None => false
  end.

(** [!v] *)
Definition falsy (v : option text) : bool :=
  match v with
  | None => true
  | Some [] => true
  | Some (_ :: _) => false
  end.

Definition str (v : option text) : text :=
  match v with
  | Some t => t
  | None => []
  end.

End UTF16.

(** [req.body] of a signup request, in full text. *)
Record SignupBody : Type := {
  signup_name : option UTF16.text;
  signup_email : option UTF16.text;
  signup_password : option UTF16.text;
  signup_type : option UTF16.text
}.

(** How a computation ends: with a value, or with a thrown [URIError]. *)
Inductive Completion (A : Type) : Type :=
| normal (a : A)
| URIError_thrown.

Arguments normal {A} a.
Arguments URIError_thrown {A}.

Section InputChecks.

(** [String.prototype.toLowerCase] on text in full, whose tables are no
    part of the repository. *)
Variable toLowerCase_text : UTF16.text -> UTF16.text.

(** The value of [error] after the input checks of [postSignup]
    (src/index.js:96-108), or the [URIError] that
    [encodeURIComponent(name)] throws in the second check. *)
Definition signup_error_text (body : SignupBody) : Completion (option Error) :=
  let name := signup_name body in
  let email := signup_email body in
  let password := signup_password body in
  let type := signup_type body in
  if UTF16.falsy name || UTF16.falsy email || UTF16.falsy password then
    normal (Some {| code := "signup.01" |})
  else
    match UTF16.encodeURIComponent (UTF16.str name) with
    | None => URIError_thrown
    | Some encoded =>
        if negb (UTF16.eqb (UTF16.str name) encoded) then
          normal (Some {| code := "signup.02" |})
        else if negb (UTF16.eqb (UTF16.str name)
                                (toLowerCase_text (UTF16.str name))) then
          normal (Some {| code := "signup.03" |})
        else if negb (UTF16.matches
                        (Seq anything (Seq (Class (between "a" "z")) anything))
                        (UTF16.charAt0 (UTF16.str name))) then
          normal (Some {| code := "signup.04" |})
        else if negb (UTF16.matches EMAIL_REGEXP (UTF16.str email)) then
          normal (Some {| code := "signup.05" |})
        else if UTF16.falsy type then
          normal (Some {| code := "signup.06" |})
        else normal None
    end.

(** What lines 86-127 of [postSignup] come to: the thrown [URIError], the
    answer to a request that fails a check ([res.json], or [res.status]
    and [res.render] with the name and the address that were sent), or the
    first call to the adapter, [adapter.find('name', name, ...)], with
    which the rest of the handler begins. *)
Inductive Checked : Type :=
| throws_URIError
| answers_json (status : Z) (error : Error)
| answers_view (status : Z) (view : View) (title : string) (error : Error)
               (basedir : string) (name email : option UTF16.text)
| finds_name (name : UTF16.text).

Definition postSignup_checks (config : Config) (body : SignupBody)
                             (app_views : string) : Checked :=
  let errorView := or_join (views_signup config) "get-signup" in
  match signup_error_text body with
  | URIError_thrown => throws_URIError
  | normal (Some error) =>
      if rest config then answers_json 403 error
      else
        answers_view 403 errorView "Sign up" error app_views
                     (signup_name body) (signup_email body)
  | normal None => finds_name (UTF16.str (signup_name body))
  end.

(** Section 4.1 in its words, on text in full: the six checks in their
    order, each with its code.  A name that has no percent-encoding does
    not equal it. *)
Definition signup_checks_text : list ((SignupBody -> bool) * string) :=
  [ (fun b => negb (UTF16.falsy (signup_name b))
              && negb (UTF16.falsy (signup_email b))
              && negb (UTF16.falsy (signup_password b)), "signup.01");
    (fun b => match UTF16.encodeURIComponent (UTF16.str (signup_name b)) with
              | Some encoded => UTF16.eqb (UTF16.str (signup_name b)) encoded
              | None => false
              end, "signup.02");
    (fun b => UTF16.eqb (UTF16.str (signup_name b))
                        (toLowerCase_text (UTF16.str (signup_name b))),
     "signup.03");
    (fun b => match UTF16.str (signup_name b) with
              | u :: _ => UTF16.in_class ascii_letter u
              | [] => false
              end, "signup.04");
    (fun b => UTF16.matches EMAIL_REGEXP (UTF16.str (signup_email b)),
     "signup.05");
    (fun b => negb (UTF16.falsy (signup_type b)), "signup.06") ].

End InputChecks.

(** The first check of a list that fails, as its error. *)
Fixpoint first_failing (A : Type) (checks : list ((A -> bool) * string))
                       (x : A) : option Error :=
  match checks with
  | [] => None
  | (passes, c) :: checks' =>
      if passes x then first_failing checks' x else Some {| code := c |}
  end.

(** The request body of the 8-bit model, in full text. *)
Definition body_of (req : Request) : SignupBody :=
  {| signup_name := option_map UTF16.of_string (body_name req);
     signup_email := option_map UTF16.of_string (body_email req);
     signup_password := option_map UTF16.of_string (body_password req);
     signup_type := option_map UTF16.of_string (body_type req) |}.

(** A signup whose name is one lead surrogate, U+D800, as a JSON body can
    carry it. *)
Definition lone_surrogate_signup : SignupBody :=
  {| signup_name := Some [55296%N];
     signup_email := Some (UTF16.of_string "bob@example.com");
     signup_password := Some (UTF16.of_string "x");
     signup_type := Some (UTF16.of_string "user") |}.

(** A world like [quiet stored] whose generator hands out the same uuid
    again and again. *)
Definition repeating (stored : list User.t) : World :=
  {| accounts := stored;
     clock := fun n => (1000 + Z.of_nat n)%Z; reads := 0;
     uuids := fun _ => sample_uuids 0; issued := 0;
     faults := fun _ => None; calls := 0 |}.

(** The world after one and after two resend requests for the address of
    "bob", with a generator that repeats itself. *)
Definition resent_once : World :=
  fst (run rest_config
           (postSignupResend rest_config (resend_request "bob@example.com"))
           (repeating [bob 900])).

Definition resent_twice : World :=
  fst (run rest_config
           (postSignupResend rest_config (resend_request "bob@example.com"))
           resent_once).

(* ================================================================== *)
(** * Regular expressions: the matcher computes the words *)
(* ================================================================== *)

Lemma append_empty_inv (s1 s2 : string) :
  s1 ++ s2 = "" -> s1 = "" /\ s2 = "".
Proof.
  destruct s1; simpl; intros H; [auto | discriminate].
Qed.

Lemma append_empty_r (s : string) : s ++ "" = s.
Proof.
  induction s; simpl; congruence.
Qed.

Lemma append_cons_inv (s1 s2 : string) (c : ascii) (s : string) :
  s1 ++ s2 = String c s ->
  (s1 = "" /\ s2 = String c s) \/ (exists s1', s1 = String c s1' /\ s = s1' ++ s2).
Proof.
  destruct s1 as [|c1 s1']; simpl; intros H.
  - left; auto.
  - right. injection H as Hc Hs. subst. eauto.
Qed.

Lemma nullable_sound (r : regex) : nullable r = true -> Matches r "".
Proof.
  induction r; simpl; intros H; try discriminate.
  - constructor.
  - apply andb_true_iff in H as [Ha Hb].
    change "" with ("" ++ ""). constructor; auto.
  - apply orb_true_iff in H as [Ha | Hb];
      [apply M_AltL | apply M_AltR]; auto.
  - constructor.
Qed.

Lemma nullable_complete (r : regex) (s : string) :
  Matches r s -> s = "" -> nullable r = true.
Proof.
  induction 1; simpl; intros E; try reflexivity; try discriminate.
  - apply append_empty_inv in E as [-> ->]. rewrite IHMatches1, IHMatches2; auto.
  - rewrite IHMatches; auto.
  - rewrite IHMatches; auto using orb_true_r.
Qed.

Lemma deriv_sound (c : ascii) (r : regex) :
  forall s, Matches (deriv c r) s -> Matches r (String c s).
Proof.
  induction r; simpl; intros s H.
  - inversion H.
  - inversion H.
  - destruct (p c) eqn:Hp; inversion H; subst. constructor; assumption.
  - destruct (nullable r1) eqn:Hn.
    + inversion H; subst.
      * match goal with M : Matches (Seq _ _) _ |- _ => inversion M; subst end.
        change (Matches (Seq r1 r2) (String c s1 ++ s2)).
        constructor; auto.
      * change (Matches (Seq r1 r2) ("" ++ String c s)).
        constructor; auto using nullable_sound.
    + inversion H; subst.
      change (Matches (Seq r1 r2) (String c s1 ++ s2)).
      constructor; auto.
  - inversion H; subst; [apply M_AltL | apply M_AltR]; auto.
  - inversion H; subst.
    change (Matches (Star r) (String c s1 ++ s2)).
    constructor; auto.
Qed.

Lemma deriv_complete (c : ascii) (r : regex) (t : string) :
  Matches r t -> forall x, t = String c x -> Matches (deriv c r) x.
Proof.
  induction 1; intros x E; simpl.
  - discriminate.
  - injection E as Hc Hs. subst. rewrite H. constructor.
  - apply append_cons_inv in E as [[-> ->] | [s1' [-> ->]]].
    + rewrite (nullable_complete H eq_refl). apply M_AltR; auto.
    + destruct (nullable a); [apply M_AltL|]; constructor; auto.
  - apply M_AltL; auto.
  - apply M_AltR; auto.
  - discriminate.
  - apply append_cons_inv in E as [[-> ->] | [s1' [-> ->]]].
    + auto.
    + constructor; auto.
Qed.

Lemma matches_Matches (s : string) :
  forall r, matches r s = true <-> Matches r s.
Proof.
  induction s as [|c s IH]; intros r; simpl.
  - split; [apply nullable_sound | intros H; eapply nullable_complete; eauto].
  - rewrite IH. split; [apply deriv_sound|].
    intros H; eapply deriv_complete; eauto.
Qed.

Lemma Matches_anything (s : string) : Matches anything s.
Proof.
  induction s as [|c s IH]; [constructor|].
  change (Matches anything (String c "" ++ s)).
  constructor; [constructor; reflexivity | exact IH].
Qed.

(** A pattern without anchors accepts a string exactly when the string
    contains a word of the pattern. *)
Lemma search_substring (r : regex) (s : string) :
  search r s = true <->
  exists before word behind, s = before ++ word ++ behind /\ Matches r word.
Proof.
  unfold search. rewrite matches_Matches. split.
  - intros H. inversion H; subst.
    match goal with M : Matches (Seq r anything) _ |- _ => inversion M; subst end.
    eauto.
  - intros (before & word & behind & -> & H).
    constructor; [apply Matches_anything|].
    constructor; [exact H | apply Matches_anything].
Qed.

(* ================================================================== *)
(** * The token pattern accepts the strings that contain a token *)
(* ================================================================== *)

Lemma hex_class_hexadecimal (c : ascii) :
  ignoreCase (fun c => digit c || between "a" "f" c) c = hexadecimal c.
Proof.
  destruct c as [[] [] [] [] [] [] [] []]; reflexivity.
Qed.

Lemma re_group_pattern :
  re = Alt (group_pattern [22]) (group_pattern [8; 4; 4; 4; 12]).
Proof.
  reflexivity.
Qed.

Lemma Matches_group_then (n : nat) (R : regex) :
  forall s,
    Matches (Seq (Rep n hex_class) R) s <->
    exists s', hex_group n s = Some s' /\ Matches R s'.
Proof.
  induction n as [|n IH]; intros s; simpl.
  - split.
    + intros H. inversion H; subst.
      match goal with M : Matches Eps _ |- _ => inversion M; subst end.
      simpl. eauto.
    + intros (s' & E & H). injection E as ->.
      change (Matches (Seq Eps R) ("" ++ s')). constructor; [constructor | exact H].
  - split.
    + intros H. inversion H as [| |a b s12 s3 H12 H3| | | |]; subst.
      inversion H12 as [| |a b s1 s2 H1 H2| | | |]; subst.
      inversion H1 as [|p c Hc| | | | |]; subst.
      simpl. rewrite hex_class_hexadecimal in Hc. rewrite Hc.
      apply IH. constructor; assumption.
    + intros (s' & E & H). destruct s as [|c s]; [discriminate|].
      destruct (hexadecimal c) eqn:Hc; [|discriminate].
      assert (M : Matches (Seq (Rep n hex_class) R) s) by (apply IH; eauto).
      inversion M as [| |a b s1 s2 H1 H2| | | |]; subst.
      change (Matches (Seq (Seq hex_class (Rep n hex_class)) R)
                      ((String c "" ++ s1) ++ s2)).
      constructor; [|assumption].
      constructor; [|assumption].
      constructor. rewrite hex_class_hexadecimal. exact Hc.
Qed.

Lemma Matches_group (n : nat) (s : string) :
  Matches (Rep n hex_class) s <-> hex_group n s = Some "".
Proof.
  split.
  - intros H.
    assert (M : Matches (Seq (Rep n hex_class) Eps) (s ++ ""))
      by (constructor; [exact H | constructor]).
    rewrite append_empty_r in M.
    apply Matches_group_then in M as (s' & E & H').
    inversion H'; subst. exact E.
  - intros E.
    assert (M : Matches (Seq (Rep n hex_class) Eps) s)
      by (apply Matches_group_then; exists ""; split; [exact E | constructor]).
    inversion M as [| |a b s1 s2 H1 H2| | | |]; subst.
    inversion H2; subst. rewrite append_empty_r. exact H1.
Qed.

Lemma Matches_dash_then (R : regex) (s : string) :
  Matches (Seq (Chr "-") R) s <-> exists s', s = String "-" s' /\ Matches R s'.
Proof.
  split.
  - intros H. inversion H as [| |a b s1 s2 H1 H2| | | |]; subst.
    inversion H1 as [|p c Hc| | | | |]; subst.
    apply Ascii.eqb_eq in Hc. subst c. simpl. eauto.
  - intros (s' & -> & H).
    change (Matches (Seq (Chr "-") R) (String "-" "" ++ s')).
    constructor; [|exact H]. constructor. reflexivity.
Qed.

Lemma groups_Matches (ns : list nat) :
  forall s, groups ns s = true <-> Matches (group_pattern ns) s.
Proof.
  induction ns as [|n ns IH]; intros s.
  - simpl. split; [discriminate | intros H; inversion H].
  - destruct ns as [|m ns].
    + simpl. rewrite Matches_group.
      destruct (hex_group n s) as [[|c r]|]; split; congruence.
    + change (groups (n :: m :: ns) s) with
        (match hex_group n s with
         | Some (String "-" s') => groups (m :: ns) s'
         | _ => false
         end).
      change (group_pattern (n :: m :: ns)) with
        (Seq (Rep n hex_class) (Seq (Chr "-") (group_pattern (m :: ns)))).
      rewrite Matches_group_then. split.
      * intros H. destruct (hex_group n s) as [[|c r]|]; try discriminate.
        destruct (Ascii.eqb_spec c "-") as [->|Hc].
        -- exists (String "-" r). split; [reflexivity|].
           apply Matches_dash_then. exists r. split; [reflexivity|].
           apply IH. exact H.
        -- exfalso. revert H.
           destruct c as [[] [] [] [] [] [] [] []]; try discriminate.
           congruence.
      * intros (s' & E & H). rewrite E.
        apply Matches_dash_then in H as (r & -> & H).
        apply IH. exact H.
Qed.

(** The words of [re] are the strings of the accepted shape. *)
Lemma Matches_re_accepted_shape (s : string) :
  Matches re s <-> accepted_shape s = true.
Proof.
  rewrite re_group_pattern. unfold accepted_shape.
  rewrite orb_true_iff, !groups_Matches. split.
  - intros H; inversion H; subst; auto.
  - intros [H | H]; [apply M_AltL | apply M_AltR]; exact H.
Qed.

(** The format check of [getSignupToken] lets a string through exactly when
    the string contains a token of the accepted shape. *)
Lemma re_test_contains (token : string) :
  re_test token = true <->
  exists before word behind,
    token = before ++ word ++ behind /\ accepted_shape word = true.
Proof.
  unfold re_test. rewrite search_substring.
  split; intros (a & m & b & E & H); exists a, m, b; split; auto;
    apply Matches_re_accepted_shape; exact H.
Qed.

(** In particular it lets every token of the accepted shape through. *)
Lemma accepted_shape_re_test (token : string) :
  accepted_shape token = true -> re_test token = true.
Proof.
  intros H. apply re_test_contains.
  exists "", token, "". rewrite append_empty_r. auto.
Qed.

(* ================================================================== *)
(** * The paths of the handlers *)
(* ================================================================== *)

Lemma no_faults_fault (w : World) : no_faults w -> fault w = None.
Proof.
  intros H. apply H.
Qed.

Lemma no_faults_call (w : World) : no_faults w -> no_faults (call w).
Proof.
  intros H n. apply H.
Qed.

Lemma no_faults_read (w : World) : no_faults w -> no_faults (read w).
Proof.
  intros H n. apply H.
Qed.

Lemma no_faults_draw (w : World) : no_faults w -> no_faults (draw w).
Proof.
  intros H n. apply H.
Qed.

Lemma no_faults_store (w : World) (stored : list User.t) :
  no_faults w -> no_faults (store stored w).
Proof.
  intros H n. apply H.
Qed.

Create HintDb faults.

#[local] Hint Resolve no_faults_fault no_faults_call no_faults_read
  no_faults_draw no_faults_store : faults.

(** One more call of a run in a world where no call fails. *)
Ltac quiet_call :=
  cbn [run]; rewrite no_faults_fault by auto with faults.

(** Both ways of answering: JSON under REST, a view otherwise. *)
Ltac either_response config :=
  destruct (rest config); reflexivity.

Section GetSignupToken.

Variables (config : Config) (req : Request) (w : World).

(** A malformed token: no lookup. *)
Lemma getSignupToken_rejected :
  re_test (params_token req) = false ->
  run config (getSignupToken config req) w = (w, [next_called None]).
Proof.
  intros Hre. unfold getSignupToken. rewrite Hre. reflexivity.
Qed.

(** A well-formed token that no account carries. *)
Lemma getSignupToken_unknown :
  re_test (params_token req) = true ->
  fault w = None ->
  findBy by_signupToken (params_token req) (accounts w) = None ->
  run config (getSignupToken config req) w =
  (call w, [find_called by_signupToken (params_token req); next_called None]).
Proof.
  intros Hre Hf Hfind. unfold getSignupToken. rewrite Hre.
  cbn [negb run]. rewrite Hf, Hfind. reflexivity.
Qed.

Variable user : User.t.

Hypothesis well_formed : re_test (params_token req) = true.
Hypothesis quiet_world : no_faults w.
Hypothesis found :
  findBy by_signupToken (params_token req) (accounts w) = Some user.

(** The expired branch. *)
Lemma getSignupToken_expired :
  Date_lt (User.signupTokenExpires user) (now w) = true ->
  run config (getSignupToken config req) w =
  (store (update (User.delete_signupToken user) (accounts w))
         (call (read (call w))),
   find_called by_signupToken (params_token req)
   :: update_called (User.delete_signupToken user)
   :: expired_response config req).
Proof.
  intros Hlt. unfold getSignupToken. rewrite well_formed. cbn [negb].
  quiet_call. rewrite found.
  cbn [run]. change (now (call w)) with (now w). rewrite Hlt.
  quiet_call. unfold expired_response. either_response config.
Qed.

(** The verified branch. *)
Lemma getSignupToken_verified :
  Date_lt (User.signupTokenExpires user) (now w) = false ->
  run config (getSignupToken config req) w =
  (store (update (verified_at (now (read w)) user) (accounts w))
         (call (read (read (call w)))),
   find_called by_signupToken (params_token req)
   :: update_called (verified_at (now (read w)) user)
   :: emitted "signup" (verified_at (now (read w)) user)
   :: verified_response config req).
Proof.
  intros Hlt. unfold getSignupToken. rewrite well_formed. cbn [negb].
  quiet_call. rewrite found.
  cbn [run]. change (now (call w)) with (now w). rewrite Hlt.
  quiet_call. unfold verified_response.
  destruct (handleResponse config); [either_response config | reflexivity].
Qed.

End GetSignupToken.

Section PostSignupResend.

Variables (config : Config) (req : Request) (w : World).

(** A request without a well-formed e-mail address: no lookup. *)
Lemma postSignupResend_invalid (e : Error) :
  resend_error (body_email req) = Some e ->
  fst (run config (postSignupResend config req) w) = w /\
  adapter_calls (snd (run config (postSignupResend config req) w)) = [].
Proof.
  intros He. unfold postSignupResend. rewrite He.
  destruct (rest config); split; reflexivity.
Qed.

Hypothesis valid : resend_error (body_email req) = None.

(** No account has the address, REST active: error [signup.10]. *)
Lemma postSignupResend_absent_rest :
  rest config = true ->
  fault w = None ->
  findBy by_email (str (body_email req)) (accounts w) = None ->
  run config (postSignupResend config req) w =
  (call w, [find_called by_email (str (body_email req));
            json_sent 403 {| code := "signup.10" |}]).
Proof.
  intros Hrest Hf Hfind. unfold postSignupResend. rewrite valid.
  cbn [run]. rewrite Hf, Hfind, Hrest. reflexivity.
Qed.

(** No account has the address, REST not active: the handler goes on to
    read [user.emailVerified] and throws. *)
Lemma postSignupResend_absent_throws :
  rest config = false ->
  fault w = None ->
  findBy by_email (str (body_email req)) (accounts w) = None ->
  run config (postSignupResend config req) w =
  (call w, [find_called by_email (str (body_email req)); TypeError_thrown]).
Proof.
  intros Hrest Hf Hfind. unfold postSignupResend. rewrite valid.
  cbn [run]. rewrite Hf, Hfind, Hrest. reflexivity.
Qed.

Variable user : User.t.

Hypothesis found :
  findBy by_email (str (body_email req)) (accounts w) = Some user.

(** The account is verified, REST active: error [signup.11], nothing
    written. *)
Lemma postSignupResend_verified_rest :
  rest config = true ->
  fault w = None ->
  User.emailVerified user = true ->
  run config (postSignupResend config req) w =
  (call w, [find_called by_email (str (body_email req));
            json_sent 403 {| code := "signup.11" |}]).
Proof.
  intros Hrest Hf Hv. unfold postSignupResend. rewrite valid.
  cbn [run]. rewrite Hf, found, Hv, Hrest. reflexivity.
Qed.

(** Every other found account gets a new token: the unverified ones, and
    the verified ones when REST is not active. *)
Lemma postSignupResend_reissues :
  no_faults w ->
  User.emailVerified user && rest config = false ->
  run config (postSignupResend config req) w =
  (store (update (reissued (uuid w) (now w + tokenExpiration config) user)
                 (accounts w))
         (call (call (read (draw (call w))))),
   find_called by_email (str (body_email req))
   :: update_called (reissued (uuid w) (now w + tokenExpiration config) user)
   :: resend_mailed (User.name user) (str (body_email req)) (uuid w)
   :: success_response config req).
Proof.
  intros Hf Hguard. unfold postSignupResend. rewrite valid.
  quiet_call. rewrite found, Hguard.
  quiet_call. quiet_call.
  unfold success_response. either_response config.
Qed.

End PostSignupResend.

Section PostSignup.

Variables (config : Config) (req : Request) (w : World).

(** A request that fails an input check: the error response, and nothing
    else. *)
Lemma postSignup_invalid (e : Error) :
  signup_error_of req = Some e ->
  run config (postSignup config req) w = (w, signup_error_response config req e).
Proof.
  unfold signup_error_of. intros He. unfold postSignup. rewrite He.
  unfold signup_error_response. either_response config.
Qed.

Hypothesis valid : signup_error_of req = None.

(** The name is taken. *)
Lemma postSignup_duplicate_name (user : User.t) :
  fault w = None ->
  findBy by_name (str (body_name req)) (accounts w) = Some user ->
  run config (postSignup config req) w =
  (call w,
   find_called by_name (str (body_name req))
   :: signup_error_response config req {| code := "signup.07" |}).
Proof.
  intros Hf Hfind. unfold signup_error_of in valid.
  unfold postSignup. rewrite valid.
  cbn [run]. rewrite Hf, Hfind.
  unfold signup_error_response. either_response config.
Qed.

Hypothesis quiet_world : no_faults w.
Hypothesis name_free :
  findBy by_name (str (body_name req)) (accounts w) = None.

(** The name is free and the address belongs to an account. *)
Lemma postSignup_duplicate_email (user : User.t) :
  findBy by_email (str (body_email req)) (accounts w) = Some user ->
  run config (postSignup config req) w =
  (call (call (call w)),
   find_called by_name (str (body_name req))
   :: find_called by_email (str (body_email req))
   :: taken_mailed (User.name user) (User.email user)
   :: success_response config req).
Proof.
  intros Hemail. unfold signup_error_of in valid.
  unfold postSignup. rewrite valid.
  quiet_call. rewrite name_free.
  quiet_call. change (accounts (call w)) with (accounts w). rewrite Hemail.
  quiet_call. unfold success_response. either_response config.
Qed.

(** Name and address are both free: the account is created. *)
Lemma postSignup_fresh :
  findBy by_email (str (body_email req)) (accounts w) = None ->
  run config (postSignup config req) w =
  (store (accounts w
          ++ [save config (str (body_name req)) (str (body_email req))
                   (str (body_password req)) (str (body_type req)) w])
         (call (read (draw (call (call (call w)))))),
   find_called by_name (str (body_name req))
   :: find_called by_email (str (body_email req))
   :: save_called (str (body_name req)) (str (body_email req))
                  (str (body_password req)) (str (body_type req))
   :: signup_mailed (str (body_name req)) (str (body_email req))
                    (Some (uuid w))
   :: emitted "signup::post"
        (save config (str (body_name req)) (str (body_email req))
              (str (body_password req)) (str (body_type req)) w)
   :: success_response config req).
Proof.
  intros Hemail. unfold signup_error_of in valid.
  unfold postSignup. rewrite valid.
  quiet_call. rewrite name_free.
  quiet_call. change (accounts (call w)) with (accounts w). rewrite Hemail.
  quiet_call. quiet_call.
  unfold success_response. either_response config.
Qed.

End PostSignup.

(* ================================================================== *)
(** * The stored accounts *)
(* ================================================================== *)

Lemma field_is_token (token : string) (a : User.t) :
  field_is by_signupToken token a = true <-> User.signupToken a = Some token.
Proof.
  unfold field_is. destruct (User.signupToken a) as [t|].
  - rewrite String.eqb_eq. split; congruence.
  - split; discriminate.
Qed.

Lemma findBy_In (field : Field) (value : string) (stored : list User.t)
      (user : User.t) :
  findBy field value stored = Some user ->
  In user stored /\ field_is field value user = true.
Proof.
  apply List.find_some.
Qed.

(** After [update] with an object that does not carry [token], a token
    that only accounts of that name carried is carried by none. *)
Lemma findBy_token_update_cleared (token : string) (user : User.t)
      (stored : list User.t) :
  (forall a, In a stored -> User.signupToken a = Some token ->
             User.name a = User.name user) ->
  User.signupToken user <> Some token ->
  findBy by_signupToken token (update user stored) = None.
Proof.
  intros Hu Hc. induction stored as [|a stored IH]; [reflexivity|].
  unfold findBy, update in *. cbn [find map].
  destruct (String.eqb (User.name a) (User.name user)) eqn:Hn.
  - destruct (field_is by_signupToken token user) eqn:Ht.
    + apply field_is_token in Ht. contradiction.
    + apply IH. intros b Hb. apply Hu. right; exact Hb.
  - destruct (field_is by_signupToken token a) eqn:Ht.
    + apply field_is_token in Ht. apply Hu in Ht; [|left; reflexivity].
      apply String.eqb_neq in Hn. contradiction.
    + apply IH. intros b Hb. apply Hu. right; exact Hb.
Qed.

(** After [update] with an object that carries a token no stored account
    carried, the token finds that object. *)
Lemma findBy_token_update_fresh (token : string) (user : User.t)
      (stored : list User.t) :
  (exists a, In a stored /\ User.name a = User.name user) ->
  (forall a, In a stored -> User.signupToken a <> Some token) ->
  User.signupToken user = Some token ->
  findBy by_signupToken token (update user stored) = Some user.
Proof.
  intros (b & Hb & Hname) Hfresh Ht.
  induction stored as [|a stored IH]; [contradiction|].
  unfold findBy, update in *. cbn [find map].
  destruct (String.eqb (User.name a) (User.name user)) eqn:Hn.
  - apply field_is_token in Ht. rewrite Ht. reflexivity.
  - destruct (field_is by_signupToken token a) eqn:Hta.
    + apply field_is_token in Hta. exfalso.
      apply (Hfresh a); [left; reflexivity | exact Hta].
    + destruct Hb as [-> | Hb].
      * apply String.eqb_neq in Hn. contradiction.
      * apply IH; [exact Hb|]. intros c Hc. apply Hfresh. right; exact Hc.
Qed.

(** [update] with an object of the same name and address keeps the
    address pointing at it. *)
Lemma findBy_email_update (e : string) (user user' : User.t)
      (stored : list User.t) :
  findBy by_email e stored = Some user ->
  User.name user' = User.name user ->
  User.email user' = e ->
  findBy by_email e (update user' stored) = Some user'.
Proof.
  intros Hfind Hname Hemail.
  induction stored as [|a stored IH]; [discriminate|].
  unfold findBy, update in *. cbn [find map field_is] in *.
  assert (Hu : String.eqb (User.email user') e = true)
    by (apply String.eqb_eq; exact Hemail).
  destruct (String.eqb (User.name a) (User.name user')) eqn:Hn.
  - rewrite Hu. reflexivity.
  - destruct (String.eqb (User.email a) e) eqn:Ha.
    + injection Hfind as ->. rewrite Hname, String.eqb_refl in Hn.
      discriminate.
    + apply IH. exact Hfind.
Qed.

Lemma In_update (user a : User.t) (stored : list User.t) :
  In a (update user stored) ->
  a = user \/ (In a stored /\ User.name a <> User.name user).
Proof.
  unfold update. rewrite in_map_iff. intros (b & E & Hb).
  destruct (String.eqb (User.name b) (User.name user)) eqn:Hn.
  - left. congruence.
  - right. subst a. split; [exact Hb|]. apply String.eqb_neq. exact Hn.
Qed.

(* ================================================================== *)
(** * The input checks of [postSignup] *)
(* ================================================================== *)

Lemma lower_char_fixed (c : ascii) :
  lower_char c = c -> upper_letter c = false.
Proof.
  destruct c as [[] [] [] [] [] [] [] []];
    try reflexivity; intros H; discriminate H.
Qed.

Lemma lowercase_first_char (c : ascii) (s : string) :
  String.eqb (String c s) (toLowerCase (String c s)) = true ->
  upper_letter c = false.
Proof.
  rewrite String.eqb_eq. simpl. intros H. injection H as Hc _.
  apply lower_char_fixed. symmetry. exact Hc.
Qed.

Lemma search_class_char (p : ascii -> bool) (c : ascii) :
  search (Class p) (String c "") = p c.
Proof.
  unfold search, anything. simpl. destruct (p c); reflexivity.
Qed.

(** [name.charAt(0).match(/[a-z]/)] on a lower-case name asks whether
    the first character is an ASCII letter. *)
Lemma first_letter_check (name : string) :
  String.eqb name (toLowerCase name) = true ->
  search (Class (between "a" "z")) (charAt 0 name) =
  first_char_is ascii_letter name.
Proof.
  destruct name as [|c s]; intros H; [reflexivity|].
  change (charAt 0 (String c s)) with (String c "").
  rewrite search_class_char. simpl.
  unfold ascii_letter, lower_letter.
  rewrite (lowercase_first_char _ _ H). rewrite orb_false_r. reflexivity.
Qed.

(** The checks of the handler are those of section 4.1, in its order. *)
Lemma signup_error_validateSignup (req : Request) :
  signup_error_of req = validateSignup req.
Proof.
  unfold signup_error_of, signup_error, validateSignup.
  cbn [first_failure signup_checks]. unfold present.
  destruct (falsy (body_name req)), (falsy (body_email req)),
    (falsy (body_password req)); try reflexivity.
  cbn [negb andb orb].
  destruct (String.eqb (str (body_name req))
                       (encodeURIComponent (str (body_name req))));
    [|reflexivity].
  destruct (String.eqb (str (body_name req))
                       (toLowerCase (str (body_name req)))) eqn:Hlow;
    [|reflexivity].
  cbn [negb]. rewrite (first_letter_check _ Hlow).
  destruct (first_char_is ascii_letter (str (body_name req)));
    [|reflexivity].
  destruct (email_match (str (body_email req))); [|reflexivity].
  destruct (falsy (body_type req)); reflexivity.
Qed.

(** A name equals its percent-encoding exactly when none of its
    characters needs escaping. *)
Lemma encodeURIComponent_length (s : string) :
  String.length s <= String.length (encodeURIComponent s).
Proof.
  induction s as [|c s IH]; simpl; [lia|].
  destruct (unreserved c); simpl.
  - lia.
  - unfold utf8_escape. destruct (Nat.ltb (code_unit c) 128); simpl.
    + lia.
    + lia.
Qed.

Lemma encodeURIComponent_fixed (s : string) :
  encodeURIComponent s = s <-> all unreserved s = true.
Proof.
  induction s as [|c s IH]; simpl; [tauto|].
  destruct (unreserved c) eqn:Hc; simpl.
  - rewrite <- IH. split; [intros H; injection H; auto | congruence].
  - split; [|discriminate]. intros H. exfalso.
    assert (L := encodeURIComponent_length s).
    apply (f_equal String.length) in H. revert H.
    unfold utf8_escape. destruct (Nat.ltb (code_unit c) 128); simpl.
    + lia.
    + lia.
Qed.

(* ================================================================== *)
(** * Signup *)
(* ================================================================== *)

Lemma adapter_calls_signup_error_response (config : Config) (req : Request)
      (e : Error) :
  adapter_calls (signup_error_response config req e) = [].
Proof.
  unfold signup_error_response. destruct (rest config); reflexivity.
Qed.

(** The input checks on 8-bit text.  For every signup request of 8-bit
    text the checks of [postSignup] are the six checks of section 4.1
    (presence of name, e-mail and password; name equal to its
    percent-encoding; name lower-case; first character an ASCII letter;
    e-mail pattern; account type present) applied in that order, so that
    the error is the code of the first check that fails; the six codes are
    pairwise different; a request that fails a check is answered with that
    code, without any call to the adapter and without any change to the
    world; and the name "Bob" fails with [signup.03] without a lookup. *)
Lemma validation_order_8bit (config : Config) (req : Request) (w : World) :
  signup_error_of req = validateSignup req /\
  NoDup (List.map snd signup_checks) /\
  (forall e,
      signup_error_of req = Some e ->
      run config (postSignup config req) w =
        (w, signup_error_response config req e) /\
      adapter_calls (snd (run config (postSignup config req) w)) = []) /\
  signup_error_of (signup_request "Bob" "bob@example.com") =
    Some {| code := "signup.03" |} /\
  adapter_calls
    (snd (run config
              (postSignup config (signup_request "Bob" "bob@example.com"))
              w)) = [].
Proof.
  split; [apply signup_error_validateSignup|].
  split.
  { repeat (constructor; [simpl; intuition discriminate|]). constructor. }
  split.
  { intros e He. rewrite (postSignup_invalid config req w He).
    split; [reflexivity | apply adapter_calls_signup_error_response]. }
  split; [reflexivity|].
  rewrite (@postSignup_invalid config (signup_request "Bob" "bob@example.com")
             w {| code := "signup.03" |} eq_refl).
  apply adapter_calls_signup_error_response.
Qed.

Lemma validation_order_8bit_example :
  signup_error_of (signup_request "Bob" "bob@example.com") =
    Some {| code := "signup.03" |} /\
  run rest_config
      (postSignup rest_config (signup_request "Bob" "bob@example.com"))
      (quiet [alice]) =
    (quiet [alice], [json_sent 403 {| code := "signup.03" |}]).
Proof.
  split; [reflexivity|].
  exact (proj1
           (proj1 (proj2 (proj2
              (validation_order_8bit rest_config
                 (signup_request "Bob" "bob@example.com") (quiet [alice]))))
              {| code := "signup.03" |} eq_refl)).
Defined.

(** C6.  For every valid signup input whose name is unused and whose
    e-mail address belongs to a stored account, [postSignup] leaves the
    stored accounts as they are and never calls [adapter.save], mails the
    duplicate-registration notice to the name and address of the account
    that owns the address, and answers exactly as it answers the same
    request in a world where the address is unused and the signup creates
    the account. *)
Theorem C6_duplicate_email_indistinguishable
        (config : Config) (req : Request) (taken fresh : World)
        (owner : User.t) :
  signup_error_of req = None ->
  no_faults taken ->
  no_faults fresh ->
  findBy by_name (str (body_name req)) (accounts taken) = None ->
  findBy by_email (str (body_email req)) (accounts taken) = Some owner ->
  findBy by_name (str (body_name req)) (accounts fresh) = None ->
  findBy by_email (str (body_email req)) (accounts fresh) = None ->
  accounts (fst (run config (postSignup config req) taken)) = accounts taken /\
  snd (run config (postSignup config req) taken) =
    find_called by_name (str (body_name req))
    :: find_called by_email (str (body_email req))
    :: taken_mailed (User.name owner) (User.email owner)
    :: success_response config req /\
  (forall n e p t,
      ~ In (save_called n e p t)
           (snd (run config (postSignup config req) taken))) /\
  response (snd (run config (postSignup config req) taken)) =
  response (snd (run config (postSignup config req) fresh)) /\
  (exists created : User.t,
      accounts (fst (run config (postSignup config req) fresh)) =
        (accounts fresh ++ [created])%list /\
      In (save_called (str (body_name req)) (str (body_email req))
                      (str (body_password req)) (str (body_type req)))
         (snd (run config (postSignup config req) fresh))).
Proof.
  intros He Ht Hf Hname Hemail Hname' Hemail'.
  rewrite (postSignup_duplicate_email config req He Ht Hname Hemail).
  rewrite (postSignup_fresh config req He Hf Hname' Hemail').
  cbn [fst snd].
  split; [reflexivity|].
  split; [reflexivity|].
  split.
  { intros n e p t [H | [H | [H | H]]]; try discriminate.
    unfold success_response in H.
    destruct (rest config); simpl in H; intuition discriminate. }
  split.
  { unfold response. cbn [filter is_response]. reflexivity. }
  eexists. split; [reflexivity|].
  right; right; left; reflexivity.
Qed.

Lemma C6_duplicate_email_indistinguishable_witness :
  response
    (snd (run html_config
              (postSignup html_config (signup_request "carol" "bob@example.com"))
              (quiet [alice; bob 5000]))) =
  response
    (snd (run html_config
              (postSignup html_config (signup_request "carol" "bob@example.com"))
              (quiet [alice]))).
Proof.
  refine (proj1 (proj2 (proj2 (proj2
            (@C6_duplicate_email_indistinguishable html_config
               (signup_request "carol" "bob@example.com")
               (quiet [alice; bob 5000]) (quiet [alice]) (bob 5000)
               _ _ _ _ _ _ _))))).
  - reflexivity.
  - intros n; reflexivity.
  - intros n; reflexivity.
  - reflexivity.
  - reflexivity.
  - reflexivity.
  - reflexivity.
Defined.

(* ================================================================== *)
(** * Verification *)
(* ================================================================== *)

Lemma findBy_name_update (user : User.t) (stored : list User.t) :
  (exists a, In a stored /\ User.name a = User.name user) ->
  findBy by_name (User.name user) (update user stored) = Some user.
Proof.
  intros (b & Hb & Hname).
  induction stored as [|a stored IH]; [contradiction|].
  unfold findBy, update in *. cbn [find map field_is].
  destruct (String.eqb (User.name a) (User.name user)) eqn:Hn.
  - rewrite String.eqb_refl. reflexivity.
  - rewrite Hn. destruct Hb as [-> | Hb].
    + apply String.eqb_neq in Hn. contradiction.
    + apply IH. exact Hb.
Qed.

(** C7.  For every stored account whose token expires in the future,
    verification with that token (a token of the accepted format that no
    account of another name carries) takes the verified branch: the
    account is written back with [emailVerified = true], the verification
    timestamp set, and neither [signupToken] nor [signupTokenExpires]; the
    [signup] event is emitted; and a second verification with the same
    token finds no account and calls [next()]. *)
Theorem C7_verification_consumes_token
        (config : Config) (req : Request) (w : World) (user : User.t)
        (expires : Z) :
  re_test (params_token req) = true ->
  no_faults w ->
  findBy by_signupToken (params_token req) (accounts w) = Some user ->
  (forall a, In a (accounts w) ->
             User.signupToken a = Some (params_token req) ->
             User.name a = User.name user) ->
  User.signupTokenExpires user = Some expires ->
  (now w < expires)%Z ->
  exists user' w',
    run config (getSignupToken config req) w =
      (w',
       find_called by_signupToken (params_token req)
       :: update_called user'
       :: emitted "signup" user'
       :: verified_response config req) /\
    User.emailVerified user' = true /\
    User.emailVerificationTimestamp user' = Some (now (read w)) /\
    User.signupToken user' = None /\
    User.signupTokenExpires user' = None /\
    findBy by_name (User.name user) (accounts w') = Some user' /\
    run config (getSignupToken config req) w' =
      (call w',
       [find_called by_signupToken (params_token req); next_called None]).
Proof.
  intros Hre Hf Hfind Honly Hexp Hfuture.
  assert (Hlt : Date_lt (User.signupTokenExpires user) (now w) = false).
  { rewrite Hexp. simpl. apply Z.ltb_ge. lia. }
  exists (verified_at (now (read w)) user).
  eexists. split.
  { apply getSignupToken_verified; assumption. }
  repeat (split; [reflexivity|]).
  split.
  { apply (findBy_name_update (verified_at (now (read w)) user)).
    exists user. split; [|reflexivity].
    apply (findBy_In _ _ _ Hfind). }
  apply getSignupToken_unknown.
  - exact Hre.
  - apply no_faults_fault. auto with faults.
  - apply findBy_token_update_cleared.
    + exact Honly.
    + discriminate.
Qed.

Lemma C7_verification_consumes_token_witness :
  (now (quiet [alice; bob 5000]) < 5000)%Z /\
  exists user' w',
    run rest_config (getSignupToken rest_config (token_request bob_token))
        (quiet [alice; bob 5000]) =
      (w',
       find_called by_signupToken bob_token
       :: update_called user'
       :: emitted "signup" user'
       :: verified_response rest_config (token_request bob_token)) /\
    User.emailVerified user' = true /\
    User.emailVerificationTimestamp user' =
      Some (now (read (quiet [alice; bob 5000]))) /\
    User.signupToken user' = None /\
    User.signupTokenExpires user' = None /\
    findBy by_name "bob" (accounts w') = Some user' /\
    run rest_config (getSignupToken rest_config (token_request bob_token)) w' =
      (call w', [find_called by_signupToken bob_token; next_called None]).
Proof.
  split; [reflexivity|].
  apply (@C7_verification_consumes_token rest_config
           (token_request bob_token) (quiet [alice; bob 5000]) (bob 5000) 5000).
  - vm_compute; reflexivity.
  - intros n; reflexivity.
  - reflexivity.
  - intros a [<- | [<- | []]]; simpl; intros H;
      [discriminate H | reflexivity].
  - reflexivity.
  - reflexivity.
Defined.

(** C3, as the code has it.  For every stored account found by its token
    the comparison is [signupTokenExpires < now]: the expired branch is
    taken exactly when the expiry instant lies strictly before the
    current time, and when the current time equals the expiry instant the
    token is still valid and the verified branch is taken. *)
Theorem C3_expiry_strictly_before_now
        (config : Config) (req : Request) (w : World) (user : User.t)
        (expires : Z) :
  re_test (params_token req) = true ->
  no_faults w ->
  findBy by_signupToken (params_token req) (accounts w) = Some user ->
  User.signupTokenExpires user = Some expires ->
  ((expires < now w)%Z ->
   snd (run config (getSignupToken config req) w) =
     find_called by_signupToken (params_token req)
     :: update_called (User.delete_signupToken user)
     :: expired_response config req) /\
  ((now w <= expires)%Z ->
   snd (run config (getSignupToken config req) w) =
     find_called by_signupToken (params_token req)
     :: update_called (verified_at (now (read w)) user)
     :: emitted "signup" (verified_at (now (read w)) user)
     :: verified_response config req) /\
  (expires = now w ->
   snd (run config (getSignupToken config req) w) =
     find_called by_signupToken (params_token req)
     :: update_called (verified_at (now (read w)) user)
     :: emitted "signup" (verified_at (now (read w)) user)
     :: verified_response config req).
Proof.
  intros Hre Hf Hfind Hexp.
  assert (Hvalid :
            (now w <= expires)%Z ->
            snd (run config (getSignupToken config req) w) =
              find_called by_signupToken (params_token req)
              :: update_called (verified_at (now (read w)) user)
              :: emitted "signup" (verified_at (now (read w)) user)
              :: verified_response config req).
  { intros Hle. rewrite (getSignupToken_verified config req Hre Hf Hfind).
    - reflexivity.
    - rewrite Hexp. simpl. apply Z.ltb_ge. exact Hle. }
  split; [|split].
  - intros Hlt. rewrite (getSignupToken_expired config req Hre Hf Hfind).
    + reflexivity.
    + rewrite Hexp. simpl. apply Z.ltb_lt. exact Hlt.
  - exact Hvalid.
  - intros ->. apply Hvalid. lia.
Qed.

Lemma C3_expiry_strictly_before_now_witness :
  snd (run rest_config (getSignupToken rest_config (token_request bob_token))
           (quiet [bob 1000])) =
  [find_called by_signupToken bob_token;
   update_called (verified_at 1001 (bob 1000));
   emitted "signup" (verified_at 1001 (bob 1000));
   sent 204].
Proof.
  refine (proj2 (proj2
            (@C3_expiry_strictly_before_now rest_config
               (token_request bob_token) (quiet [bob 1000]) (bob 1000) 1000
               _ _ _ _)) _).
  - vm_compute; reflexivity.
  - intros n; reflexivity.
  - reflexivity.
  - reflexivity.
  - reflexivity.
Defined.

(** C3, as stated, fails: the token of this account expires at 1000, the
    clock reads 1000, and verification answers 204 after marking the
    account verified; it does not answer with the expired error. *)
Lemma C3_counterexample :
  User.signupTokenExpires (bob 1000) = Some (now (quiet [bob 1000])) /\
  snd (run rest_config (getSignupToken rest_config (token_request bob_token))
           (quiet [bob 1000])) =
    [find_called by_signupToken bob_token;
     update_called (verified_at 1001 (bob 1000));
     emitted "signup" (verified_at 1001 (bob 1000));
     sent 204] /\
  snd (run rest_config (getSignupToken rest_config (token_request bob_token))
           (quiet [bob 1000])) <>
    find_called by_signupToken bob_token
    :: update_called (User.delete_signupToken (bob 1000))
    :: expired_response rest_config (token_request bob_token).
Proof.
  split; [reflexivity|].
  split; [vm_compute; reflexivity|].
  vm_compute. intros H. discriminate H.
Qed.

(** C1, on the code.  The token of this account expired at 900 and the
    clock reads 1000: verification takes the expired branch and writes
    the account back without [signupToken] but still with
    [signupTokenExpires], so that the stored account breaks the
    co-presence of the two fields. *)
Theorem C1_expired_branch_keeps_signupTokenExpires :
  Date_lt (User.signupTokenExpires (bob 900)) (now (quiet [bob 900])) = true /\
  snd (run rest_config (getSignupToken rest_config (token_request bob_token))
           (quiet [bob 900])) =
    [find_called by_signupToken bob_token;
     update_called
       (User.mk "bob" "bob@example.com" "x" "user" false None None
                (Some 900%Z));
     json_sent 403 {| code := "signup.09" |}] /\
  accounts
    (fst (run rest_config (getSignupToken rest_config (token_request bob_token))
              (quiet [bob 900]))) =
    [User.mk "bob" "bob@example.com" "x" "user" false None None (Some 900%Z)] /\
  ~ token_fields_agree
      (User.mk "bob" "bob@example.com" "x" "user" false None None (Some 900%Z)).
Proof.
  split; [reflexivity|].
  split; [vm_compute; reflexivity|].
  split; [vm_compute; reflexivity|].
  unfold token_fields_agree. simpl. intros [H _].
  specialize (H eq_refl). discriminate H.
Qed.

(** What the expired branch does to every account: the written object has
    lost [signupToken] and kept [signupTokenExpires]. *)
Lemma expired_branch_keeps_signupTokenExpires
      (config : Config) (req : Request) (w : World) (user : User.t)
      (expires : Z) :
  re_test (params_token req) = true ->
  no_faults w ->
  findBy by_signupToken (params_token req) (accounts w) = Some user ->
  User.signupTokenExpires user = Some expires ->
  (expires < now w)%Z ->
  exists user',
    In (update_called user') (snd (run config (getSignupToken config req) w)) /\
    User.signupToken user' = None /\
    User.signupTokenExpires user' = Some expires /\
    ~ token_fields_agree user'.
Proof.
  intros Hre Hf Hfind Hexp Hlt.
  exists (User.delete_signupToken user).
  rewrite (getSignupToken_expired config req Hre Hf Hfind).
  - split; [right; left; reflexivity|].
    split; [reflexivity|].
    split; [exact Hexp|].
    unfold token_fields_agree. simpl. rewrite Hexp. intros [H _].
    specialize (H eq_refl). discriminate H.
  - rewrite Hexp. simpl. apply Z.ltb_lt. exact Hlt.
Qed.

(** C10.  For every request, world and pair of values of
    [config.signup.handleResponse], verification leaves the same world
    (so the same stored accounts) and the same adapter calls and emitted
    events; and on a successful verification the run with the flag set is
    the run without it followed by the response, and the run without it
    ends with the [signup] event and no response. *)
Theorem C10_handleResponse_only_conditions_response
        (config : Config) (req : Request) (w : World) (b1 b2 : bool) :
  fst (run (with_handleResponse b1 config)
           (getSignupToken (with_handleResponse b1 config) req) w) =
  fst (run (with_handleResponse b2 config)
           (getSignupToken (with_handleResponse b2 config) req) w) /\
  effects (snd (run (with_handleResponse b1 config)
                    (getSignupToken (with_handleResponse b1 config) req) w)) =
  effects (snd (run (with_handleResponse b2 config)
                    (getSignupToken (with_handleResponse b2 config) req) w)) /\
  (forall user,
      re_test (params_token req) = true ->
      no_faults w ->
      findBy by_signupToken (params_token req) (accounts w) = Some user ->
      Date_lt (User.signupTokenExpires user) (now w) = false ->
      snd (run (with_handleResponse false config)
               (getSignupToken (with_handleResponse false config) req) w) =
        [find_called by_signupToken (params_token req);
         update_called (verified_at (now (read w)) user);
         emitted "signup" (verified_at (now (read w)) user)] /\
      snd (run (with_handleResponse true config)
               (getSignupToken (with_handleResponse true config) req) w) =
        (snd (run (with_handleResponse false config)
                  (getSignupToken (with_handleResponse false config) req) w)
         ++ verified_response (with_handleResponse true config) req)%list /\
      verified_response (with_handleResponse true config) req <> []).
Proof.
  split; [|split].
  - unfold getSignupToken. destruct (re_test (params_token req)); [|reflexivity].
    cbn [negb run]. destruct (fault w); [reflexivity|].
    destruct (findBy by_signupToken (params_token req) (accounts w)) as [user|];
      [|reflexivity].
    cbn [run].
    destruct (Date_lt (User.signupTokenExpires user) (now (call w))).
    + cbn [run]. destruct (fault (read (call w))); [reflexivity|].
      cbn [rest with_handleResponse]. destruct (rest config); reflexivity.
    + cbn [run]. destruct (fault (read (read (call w)))); [reflexivity|].
      cbn [rest handleResponse with_handleResponse].
      destruct b1, b2, (rest config); reflexivity.
  - unfold getSignupToken. destruct (re_test (params_token req)); [|reflexivity].
    cbn [negb run]. destruct (fault w); [reflexivity|].
    destruct (findBy by_signupToken (params_token req) (accounts w)) as [user|];
      [|reflexivity].
    cbn [run].
    destruct (Date_lt (User.signupTokenExpires user) (now (call w))).
    + cbn [run]. destruct (fault (read (call w))); [reflexivity|].
      cbn [rest with_handleResponse]. destruct (rest config); reflexivity.
    + cbn [run]. destruct (fault (read (read (call w)))); [reflexivity|].
      cbn [rest handleResponse with_handleResponse].
      destruct b1, b2, (rest config); reflexivity.
  - intros user Hre Hf Hfind Hlt.
    rewrite !(getSignupToken_verified _ req Hre Hf Hfind Hlt).
    cbn [snd]. unfold verified_response.
    cbn [rest handleResponse with_handleResponse].
    split; [reflexivity|].
    split; [reflexivity|].
    destruct (rest config); discriminate.
Qed.

Lemma C10_handleResponse_only_conditions_response_witness :
  snd (run (with_handleResponse true html_config)
           (getSignupToken (with_handleResponse true html_config)
                           (token_request bob_token))
           (quiet [bob 5000])) =
  (snd (run (with_handleResponse false html_config)
            (getSignupToken (with_handleResponse false html_config)
                            (token_request bob_token))
            (quiet [bob 5000]))
   ++ verified_response (with_handleResponse true html_config)
                        (token_request bob_token))%list.
Proof.
  refine (proj1 (proj2
            (proj2 (proj2
               (C10_handleResponse_only_conditions_response
                  html_config (token_request bob_token) (quiet [bob 5000])
                  true false))
               (bob 5000) _ _ _ _))).
  - vm_compute; reflexivity.
  - intros n; reflexivity.
  - reflexivity.
  - reflexivity.
Defined.

(* ================================================================== *)
(** * Resend *)
(* ================================================================== *)

Lemma findBy_email_eq (e : string) (stored : list User.t) (user : User.t) :
  findBy by_email e stored = Some user -> User.email user = e.
Proof.
  intros H. apply findBy_In in H as [_ H]. apply String.eqb_eq. exact H.
Qed.



(** C2, on the code.  With REST not active, a resend request for the
    address of a verified account is not refused: the account is written
    back with a new token and expiry, the token is mailed, and the answer
    is the success view. *)
Theorem C2_verified_account_reissued_without_rest :
  User.emailVerified alice = true /\
  run html_config
      (postSignupResend html_config (resend_request "alice@example.com"))
      (quiet [alice]) =
    (store [User.mk "alice" "alice@example.com" "y" "user" true (Some 500%Z)
                    (Some (sample_uuids 0)) (Some 86401000%Z)]
           (call (call (read (draw (call (quiet [alice])))))),
     [find_called by_email "alice@example.com";
      update_called
        (User.mk "alice" "alice@example.com" "y" "user" true (Some 500%Z)
                 (Some (sample_uuids 0)) (Some 86401000%Z));
      resend_mailed "alice" "alice@example.com" (sample_uuids 0);
      rendered (join "post-signup")
        {| title := "Sign up - Email sent"; error := None;
           basedir := "/app/views";
           locals_name := None; locals_email := None |}]).
Proof.
  split; [reflexivity|].
  vm_compute. reflexivity.
Qed.

(** C9, on the code.  With REST not active, a resend request for an
    address that no account has goes past the [!user] guard and reads
    [user.emailVerified] of the missing account, which throws. *)
Theorem C9_absent_account_dereferenced_without_rest :
  findBy by_email "nobody@example.com" (accounts (quiet [alice])) = None /\
  run html_config
      (postSignupResend html_config (resend_request "nobody@example.com"))
      (quiet [alice]) =
    (call (quiet [alice]),
     [find_called by_email "nobody@example.com"; TypeError_thrown]).
Proof.
  split; [reflexivity|].
  apply postSignupResend_absent_throws; reflexivity.
Qed.

(** C4, on the code.  A string of 23 hexadecimal digits is neither a
    22-digit token nor a dashed one, and yet passes the format check: the
    adapter is asked for an account with that token. *)
Theorem C4_format_check_admits_string_containing_token :
  accepted_shape "0123456789abcdef0123456" = false /\
  re_test "0123456789abcdef0123456" = true /\
  run rest_config
      (getSignupToken rest_config (token_request "0123456789abcdef0123456"))
      (quiet [alice]) =
    (call (quiet [alice]),
     [find_called by_signupToken "0123456789abcdef0123456";
      next_called None]).
Proof.
  split; [reflexivity|].
  split; [vm_compute; reflexivity|].
  apply getSignupToken_unknown.
  - vm_compute; reflexivity.
  - reflexivity.
  - reflexivity.
Qed.

(** With REST not active every verified account that a resend request
    finds is given a new token. *)
Lemma verified_account_reissued_without_rest
      (config : Config) (req : Request) (w : World) (user : User.t) :
  rest config = false ->
  resend_error (body_email req) = None ->
  no_faults w ->
  findBy by_email (str (body_email req)) (accounts w) = Some user ->
  User.emailVerified user = true ->
  exists user',
    In (update_called user')
       (snd (run config (postSignupResend config req) w)) /\
    User.emailVerified user' = true /\
    User.signupToken user' = Some (uuid w) /\
    accounts (fst (run config (postSignupResend config req) w)) =
      update user' (accounts w).
Proof.
  intros Hrest He Hf Hfind Hv.
  exists (reissued (uuid w) (now w + tokenExpiration config) user).
  rewrite (@postSignupResend_reissues config req w He user Hfind Hf).
  - split; [right; left; reflexivity|].
    split; [exact Hv|].
    split; reflexivity.
  - rewrite Hrest. apply andb_false_r.
Qed.

(* ================================================================== *)
(** * The example of section 8 *)
(* ================================================================== *)

(** Signing up "bob" in an empty world stores an unverified account with
    the first uuid as its token; an unrelated 22-digit token finds
    nothing; the issued token verifies the account; and the same token
    finds nothing afterwards. *)
Example signup_then_verify :
  run rest_config (postSignup rest_config (signup_request "bob" "bob@example.com"))
      (quiet []) =
    (store [User.mk "bob" "bob@example.com" "x" "user" false None
                    (Some (sample_uuids 0)) (Some 86401000%Z)]
           (call (read (draw (call (call (call (quiet []))))))),
     [find_called by_name "bob";
      find_called by_email "bob@example.com";
      save_called "bob" "bob@example.com" "x" "user";
      signup_mailed "bob" "bob@example.com" (Some (sample_uuids 0));
      emitted "signup::post"
        (User.mk "bob" "bob@example.com" "x" "user" false None
                 (Some (sample_uuids 0)) (Some 86401000%Z));
      sent 204]) /\
  snd (run rest_config
           (getSignupToken rest_config (token_request "0123456789abcdef012345"))
           (quiet [User.mk "bob" "bob@example.com" "x" "user" false None
                           (Some (sample_uuids 0)) (Some 86401000%Z)])) =
    [find_called by_signupToken "0123456789abcdef012345"; next_called None] /\
  run rest_config (getSignupToken rest_config (token_request (sample_uuids 0)))
      (quiet [User.mk "bob" "bob@example.com" "x" "user" false None
                      (Some (sample_uuids 0)) (Some 86401000%Z)]) =
    (store [User.mk "bob" "bob@example.com" "x" "user" true (Some 1001%Z)
                    None None]
           (call (read (read (call (quiet []))))),
     [find_called by_signupToken (sample_uuids 0);
      update_called
        (User.mk "bob" "bob@example.com" "x" "user" true (Some 1001%Z)
                 None None);
      emitted "signup"
        (User.mk "bob" "bob@example.com" "x" "user" true (Some 1001%Z)
                 None None);
      sent 204]) /\
  snd (run rest_config
           (getSignupToken rest_config (token_request (sample_uuids 0)))
           (quiet [User.mk "bob" "bob@example.com" "x" "user" true
                           (Some 1001%Z) None None])) =
    [find_called by_signupToken (sample_uuids 0); next_called None].
Proof.
  repeat split; vm_compute; reflexivity.
Qed.

(* ================================================================== *)
(** * The addresses that [EMAIL_REGEXP] accepts *)
(* ================================================================== *)

Lemma Matches_Eps_then (B : regex) (s : string) :
  Matches (Seq Eps B) s <-> Matches B s.
Proof.
  split.
  - intros H. inversion H as [| |a b s1 s2 H1 H2| | | |]; subst.
    inversion H1; subst. exact H2.
  - intros H. change (Matches (Seq Eps B) ("" ++ s)).
    constructor; [constructor | exact H].
Qed.

Lemma Matches_class_then (p : ascii -> bool) (B : regex) (s : string) :
  Matches (Seq (Class p) B) s <->
  exists c s', s = String c s' /\ p c = true /\ Matches B s'.
Proof.
  split.
  - intros H. inversion H as [| |a b s1 s2 H1 H2| | | |]; subst.
    inversion H1; subst. simpl. eauto.
  - intros (c & s' & -> & Hc & H).
    change (Matches (Seq (Class p) B) (String c "" ++ s')).
    constructor; [constructor; exact Hc | exact H].
Qed.

Lemma append_assoc (s1 s2 s3 : string) : (s1 ++ s2) ++ s3 = s1 ++ s2 ++ s3.
Proof.
  induction s1; simpl; congruence.
Qed.

Lemma Matches_Seq_assoc (A B C : regex) (s : string) :
  Matches (Seq (Seq A B) C) s <-> Matches (Seq A (Seq B C)) s.
Proof.
  split.
  - intros H. inversion H as [| |a b s12 s3 H12 H3| | | |]; subst.
    inversion H12 as [| |a b s1 s2 H1 H2| | | |]; subst.
    rewrite append_assoc. constructor; [exact H1|]. constructor; assumption.
  - intros H. inversion H as [| |a b s1 s23 H1 H23| | | |]; subst.
    inversion H23 as [| |a b s2 s3 H2 H3| | | |]; subst.
    rewrite <- append_assoc. constructor; [|exact H3]. constructor; assumption.
Qed.

Lemma Matches_Star_class (p : ascii -> bool) (s : string) :
  Matches (Star (Class p)) s <-> all p s = true.
Proof.
  split.
  - intros H. remember (Star (Class p)) as r eqn:E.
    induction H; try discriminate.
    + reflexivity.
    + injection E as ->. inversion H; subst. simpl.
      rewrite IHMatches2 by reflexivity.
      match goal with Hc : p _ = true |- _ => rewrite Hc end. reflexivity.
  - induction s as [|c s IH]; simpl; intros H; [constructor|].
    apply andb_true_iff in H as [Hc Hs].
    change (Matches (Star (Class p)) (String c "" ++ s)).
    constructor; [constructor; exact Hc | auto].
Qed.

(** [[p]+] accepts the non-empty strings of characters of [p]. *)
Lemma Matches_Plus_class (p : ascii -> bool) (s : string) :
  Matches (Plus (Class p)) s <-> s <> "" /\ all p s = true.
Proof.
  unfold Plus. rewrite Matches_class_then. split.
  - intros (c & s' & -> & Hc & H). apply Matches_Star_class in H.
    split; [discriminate|]. simpl. rewrite Hc, H. reflexivity.
  - intros [Hne H]. destruct s as [|c s']; [contradiction|].
    simpl in H. apply andb_true_iff in H as [Hc Hs].
    exists c, s'. repeat split; auto. apply Matches_Star_class. exact Hs.
Qed.

Lemma Matches_UpTo_class (p : ascii -> bool) (n : nat) :
  forall s,
    Matches (UpTo n (Class p)) s <-> String.length s <= n /\ all p s = true.
Proof.
  induction n as [|n IH]; intros s; simpl.
  - split.
    + intros H; inversion H; subst. simpl. auto.
    + intros [Hl _]. destruct s; simpl in Hl; [constructor | lia].
  - split.
    + intros H. inversion H as [| | |a b s0 H1|a b s0 H1| |]; subst.
      * inversion H1; subst. simpl. split; [lia | reflexivity].
      * apply Matches_class_then in H1 as (c & s' & -> & Hc & H').
        apply IH in H' as [Hl Ha]. simpl. rewrite Hc, Ha. split; [lia | auto].
    + intros [Hl Ha]. destruct s as [|c s'].
      * apply M_AltL. constructor.
      * simpl in Hl, Ha. apply andb_true_iff in Ha as [Hc Hs].
        apply M_AltR. apply Matches_class_then. exists c, s'.
        repeat split; auto. apply IH. split; [lia | exact Hs].
Qed.

(** [[p]{lo,lo+k}] accepts the strings of [lo] to [lo+k] characters of
    [p]. *)
Lemma Matches_Rep_UpTo_class (p : ascii -> bool) (k lo : nat) :
  forall s,
    Matches (Seq (Rep lo (Class p)) (UpTo k (Class p))) s <->
    (lo <= String.length s <= lo + k /\ all p s = true).
Proof.
  induction lo as [|lo IH]; intros s.
  - simpl Rep. rewrite Matches_Eps_then, Matches_UpTo_class. simpl.
    split; intros [Hl Ha]; split; auto; lia.
  - simpl Rep. rewrite Matches_Seq_assoc, Matches_class_then. split.
    + intros (c & s' & -> & Hc & H). apply IH in H as [Hl Ha].
      simpl. rewrite Hc, Ha. split; [lia | reflexivity].
    + intros [Hl Ha]. destruct s as [|c s']; [simpl in Hl; lia|].
      simpl in Hl, Ha. apply andb_true_iff in Ha as [Hc Hs].
      exists c, s'. repeat split; auto. apply IH. split; [lia | exact Hs].
Qed.

(** X1.  [EMAIL_REGEXP] accepts exactly the strings
    [local @ domain . tld] in which [local] is a non-empty string of
    letters, digits and [._%+-], [domain] a non-empty string of letters,
    digits, dots and dashes, and [tld] a string of two to six letters. *)
Theorem X1_email_match_shape (email : string) :
  email_match email = true <->
  exists local domain tld,
    email = local ++ "@" ++ domain ++ "." ++ tld /\
    local <> "" /\ all local_char local = true /\
    domain <> "" /\ all domain_char domain = true /\
    2 <= String.length tld <= 6 /\ all ascii_letter tld = true.
Proof.
  unfold email_match. rewrite matches_Matches. unfold EMAIL_REGEXP. split.
  - intros H.
    inversion H as [| |a b local s1 Hlocal H1| | | |]; subst.
    inversion H1 as [| |a b at_ s2 Hat H2| | | |]; subst.
    inversion H2 as [| |a b domain s3 Hdomain H3| | | |]; subst.
    inversion H3 as [| |a b dot tld Hdot Htld| | | |]; subst.
    inversion Hat as [|p c Hc| | | | |]; subst.
    apply Ascii.eqb_eq in Hc; subst c.
    inversion Hdot as [|p c Hc| | | | |]; subst.
    apply Ascii.eqb_eq in Hc; subst c.
    apply Matches_Plus_class in Hlocal as [Hl1 Hl2].
    apply Matches_Plus_class in Hdomain as [Hd1 Hd2].
    apply Matches_Rep_UpTo_class in Htld as [Ht1 Ht2].
    exists local, domain, tld. repeat split; auto; simpl in *; lia.
  - intros (local & domain & tld & -> & Hl1 & Hl2 & Hd1 & Hd2 & Ht1 & Ht2).
    constructor; [apply Matches_Plus_class; auto|].
    change ("@" ++ domain ++ "." ++ tld)
      with (String "@" "" ++ domain ++ String "." "" ++ tld).
    constructor; [constructor; reflexivity|].
    constructor; [apply Matches_Plus_class; auto|].
    constructor; [constructor; reflexivity|].
    apply Matches_Rep_UpTo_class. split; [simpl; lia | exact Ht2].
Qed.

(* ================================================================== *)
(** * The signups that [postSignup] accepts *)
(* ================================================================== *)

Lemma all_andb (p q : ascii -> bool) (s : string) :
  all (fun c => p c && q c) s = all p s && all q s.
Proof.
  induction s as [|c s IH]; simpl; [reflexivity|].
  rewrite IH. destruct (p c), (q c), (all p s), (all q s); reflexivity.
Qed.

Lemma all_ext (p q : ascii -> bool) (s : string) :
  (forall c, p c = q c) -> all p s = all q s.
Proof.
  intros E. induction s as [|c s IH]; simpl; [reflexivity|].
  rewrite E, IH. reflexivity.
Qed.

Lemma lower_char_fixed_iff (c : ascii) :
  lower_char c = c <-> has_lower_form c = false.
Proof.
  destruct c as [[] [] [] [] [] [] [] []];
    split; intros H; try reflexivity; discriminate H.
Qed.

Lemma toLowerCase_fixed (s : string) :
  String.eqb s (toLowerCase s) = true <->
  all (fun c => negb (has_lower_form c)) s = true.
Proof.
  rewrite String.eqb_eq. induction s as [|c s IH]; simpl; [tauto|].
  rewrite andb_true_iff, negb_true_iff, <- IH, <- lower_char_fixed_iff.
  split.
  - intros H. injection H as Hc Hs. auto.
  - intros [Hc Hs]. congruence.
Qed.

Lemma name_char_split (c : ascii) :
  name_char c = unreserved c && negb (has_lower_form c).
Proof.
  destruct c as [[] [] [] [] [] [] [] []]; reflexivity.
Qed.

(** A string equals its percent-encoding and its lower-case form exactly
    when it is made of lower-case letters, digits and [-_.!~*'()]. *)
Lemma name_chars (s : string) :
  String.eqb s (encodeURIComponent s) = true /\
  String.eqb s (toLowerCase s) = true <->
  all name_char s = true.
Proof.
  rewrite (all_ext name_char _ s name_char_split), all_andb, andb_true_iff.
  rewrite toLowerCase_fixed, String.eqb_eq, <- encodeURIComponent_fixed.
  split; intros [H1 H2]; split; auto.
Qed.

Lemma falsy_false (v : option string) :
  falsy v = false <-> exists s, v = Some s /\ s <> "".
Proof.
  destruct v as [s|]; simpl.
  - rewrite String.eqb_neq. split; [eauto|]. intros (s' & E & H). congruence.
  - split; [discriminate|]. intros (s' & E & _). discriminate.
Qed.

Lemma first_letter_lower (s : string) :
  String.eqb s (toLowerCase s) = true ->
  first_char_is ascii_letter s = first_char_is lower_letter s.
Proof.
  destruct s as [|c s]; intros H; [reflexivity|]. simpl.
  unfold ascii_letter. rewrite (lowercase_first_char _ _ H).
  apply orb_false_r.
Qed.

(** X2.  [postSignup] finds no error in a request exactly when the name is
    a string of lower-case letters, digits and [-_.!~*'()] that starts with
    a lower-case letter, the address matches [EMAIL_REGEXP], and the
    password and the type are non-empty strings. *)
Theorem X2_accepted_signups (req : Request) :
  signup_error_of req = None <->
  exists name email password type,
    body_name req = Some name /\ body_email req = Some email /\
    body_password req = Some password /\ body_type req = Some type /\
    first_char_is lower_letter name = true /\ all name_char name = true /\
    email_match email = true /\ password <> "" /\ type <> "".
Proof.
  rewrite signup_error_validateSignup. unfold validateSignup.
  cbn [first_failure signup_checks]. unfold present. split.
  - intros H.
    destruct (falsy (body_name req)) eqn:Hn; [discriminate|].
    destruct (falsy (body_email req)) eqn:He; [discriminate|].
    destruct (falsy (body_password req)) eqn:Hp; [discriminate|].
    cbn [negb andb] in H.
    apply falsy_false in Hn as (name & En & Hn).
    apply falsy_false in He as (email & Ee & He).
    apply falsy_false in Hp as (password & Ep & Hp).
    rewrite En, Ee in H. cbn [str] in H.
    destruct (String.eqb name (encodeURIComponent name)) eqn:Henc;
      [|discriminate].
    destruct (String.eqb name (toLowerCase name)) eqn:Hlow; [|discriminate].
    rewrite (first_letter_lower _ Hlow) in H.
    destruct (first_char_is lower_letter name) eqn:Hfirst; [|discriminate].
    destruct (email_match email) eqn:Hmail; [|discriminate].
    destruct (falsy (body_type req)) eqn:Ht; [discriminate|].
    apply falsy_false in Ht as (type & Et & Ht).
    exists name, email, password, type.
    repeat split; auto. apply name_chars. auto.
  - intros (name & email & password & type & En & Ee & Ep & Et
            & Hfirst & Hchars & Hmail & Hp & Ht).
    apply name_chars in Hchars as [Henc Hlow].
    rewrite En, Ee, Ep, Et. cbn [falsy str].
    assert (Hn : name <> "") by (destruct name; [discriminate | discriminate]).
    assert (He : email <> "") by (destruct email; [discriminate | discriminate]).
    apply String.eqb_neq in Hn, He, Hp, Ht.
    rewrite Hn, He, Hp, Ht. cbn [negb andb].
    rewrite Henc, Hlow, (first_letter_lower _ Hlow), Hfirst, Hmail.
    reflexivity.
Qed.

(* ================================================================== *)
(** * Requests that are turned away *)
(* ================================================================== *)

(** X3.  [postSignupResend] refuses a request with [signup.08] exactly
    when the address is missing, empty or does not match [EMAIL_REGEXP],
    and a refused request is answered at once (JSON under REST, else
    status 403 and the resend view with the error), without any call to
    the adapter or the mailer and in an unchanged world. *)
Theorem X3_resend_check (config : Config) (req : Request) (w : World) :
  (resend_error (body_email req) = None <->
   exists email, body_email req = Some email /\ email_match email = true) /\
  (resend_error (body_email req) <> None ->
   resend_error (body_email req) = Some {| code := "signup.08" |} /\
   run config (postSignupResend config req) w =
     (w, resend_error_response config req {| code := "signup.08" |})).
Proof.
  split.
  - unfold resend_error. destruct (body_email req) as [email|]; simpl.
    + destruct (String.eqb_spec email "") as [-> | Hne]; simpl.
      * split; [discriminate|]. intros (e & E & H). injection E as <-.
        discriminate H.
      * destruct (email_match email) eqn:Hm; simpl.
        -- split; eauto.
        -- split; [discriminate|]. intros (e & E & H). congruence.
    + split; [discriminate|]. intros (e & E & _). discriminate.
  - intros Herr.
    assert (E : resend_error (body_email req) = Some {| code := "signup.08" |}).
    { unfold resend_error in *.
      destruct (falsy (body_email req)
                || negb (email_match (str (body_email req))));
        [reflexivity | contradiction]. }
    split; [exact E|].
    unfold postSignupResend, resend_error_response. rewrite E.
    either_response config.
Qed.

Lemma X3_resend_check_witness :
  run html_config (postSignupResend html_config (resend_request "bob@example"))
      (quiet [alice]) =
    (quiet [alice],
     resend_error_response html_config (resend_request "bob@example")
                           {| code := "signup.08" |}).
Proof.
  refine (proj2 (proj2 (X3_resend_check html_config
                          (resend_request "bob@example") (quiet [alice])) _)).
  vm_compute. intros H. discriminate H.
Defined.

(** X4.  When the name of a valid signup request is taken, [postSignup]
    answers with [signup.07] after that one lookup: it does not look the
    address up, mails nothing (also when the address belongs to an
    account), saves nothing and leaves the stored accounts as they are. *)
Theorem X4_duplicate_name_first
        (config : Config) (req : Request) (w : World) (user : User.t) :
  signup_error_of req = None ->
  fault w = None ->
  findBy by_name (str (body_name req)) (accounts w) = Some user ->
  run config (postSignup config req) w =
    (call w,
     find_called by_name (str (body_name req))
     :: signup_error_response config req {| code := "signup.07" |}) /\
  adapter_calls (snd (run config (postSignup config req) w)) =
    [find_called by_name (str (body_name req))] /\
  mails (snd (run config (postSignup config req) w)) = [].
Proof.
  intros Hvalid Hf Hfind.
  rewrite (@postSignup_duplicate_name config req w Hvalid user Hf Hfind).
  split; [reflexivity|]. cbn [snd].
  unfold signup_error_response. destruct (rest config); split; reflexivity.
Qed.

Lemma X4_duplicate_name_first_witness :
  mails
    (snd (run html_config
              (postSignup html_config (signup_request "bob" "alice@example.com"))
              (quiet [alice; bob 5000]))) = [].
Proof.
  refine (proj2 (proj2
            (@X4_duplicate_name_first html_config
               (signup_request "bob" "alice@example.com")
               (quiet [alice; bob 5000]) (bob 5000) _ _ _))).
  - reflexivity.
  - reflexivity.
  - reflexivity.
Defined.

(** X5.  The form pages and the error pages share their templates: with
    REST not active [getSignup] renders the signup view, and [postSignup]
    answers a request that fails a check with status 403 and the same
    view, now with the error and the name and address that were sent;
    [getSignupResend] and [postSignupResend] do the same with the resend
    view.  With REST active the two form pages only call [next()]. *)
Theorem X5_form_pages (config : Config) (req : Request) (w : World) :
  (rest config = true ->
   run config (getSignup config req) w = (w, [next_called None]) /\
   run config (getSignupResend config req) w = (w, [next_called None])) /\
  (rest config = false ->
   exists signup_view resend_view,
     run config (getSignup config req) w =
       (w, [rendered signup_view
              {| title := "Sign up"; error := None;
                 basedir := app_views req;
                 locals_name := None; locals_email := None |}]) /\
     (forall e,
         signup_error_of req = Some e ->
         run config (postSignup config req) w =
           (w, [status_set 403;
                rendered signup_view
                  {| title := "Sign up"; error := Some e;
                     basedir := app_views req;
                     locals_name := body_name req;
                     locals_email := body_email req |}])) /\
     run config (getSignupResend config req) w =
       (w, [rendered resend_view
              {| title := "Resend verification email"; error := None;
                 basedir := app_views req;
                 locals_name := None; locals_email := None |}]) /\
     (forall e,
         resend_error (body_email req) = Some e ->
         run config (postSignupResend config req) w =
           (w, [status_set 403;
                rendered resend_view
                  {| title := "Resend verification email"; error := Some e;
                     basedir := app_views req;
                     locals_name := None; locals_email := None |}]))).
Proof.
  split.
  - intros Hrest. unfold getSignup, getSignupResend. rewrite Hrest.
    split; reflexivity.
  - intros Hrest.
    exists (or_join (views_signup config) "get-signup"),
           (or_join (views_resend config) "resend-verification").
    unfold getSignup, getSignupResend. rewrite Hrest.
    split; [reflexivity|].
    split.
    { intros e He. rewrite (postSignup_invalid config req w He).
      unfold signup_error_response. rewrite Hrest. reflexivity. }
    split; [reflexivity|].
    intros e He. unfold postSignupResend. rewrite He, Hrest. reflexivity.
Qed.

Lemma X5_form_pages_witness :
  run rest_config (getSignup rest_config (signup_request "bob" "b@example.com"))
      (quiet [alice]) = (quiet [alice], [next_called None]).
Proof.
  exact (proj1 (proj1 (X5_form_pages rest_config
                         (signup_request "bob" "b@example.com")
                         (quiet [alice])) eq_refl)).
Defined.

(* ================================================================== *)
(** * The format check of [getSignupToken] *)
(* ================================================================== *)

Lemma length_append (s1 s2 : string) :
  String.length (s1 ++ s2) = String.length s1 + String.length s2.
Proof.
  induction s1 as [|c s1 IH]; simpl; [reflexivity | rewrite IH; reflexivity].
Qed.

Lemma hex_group_length (n : nat) :
  forall s r, hex_group n s = Some r -> String.length s = n + String.length r.
Proof.
  induction n as [|n IH]; intros s r H; simpl in H.
  - injection H as ->. reflexivity.
  - destruct s as [|c s]; [discriminate|].
    destruct (hexadecimal c); [|discriminate].
    apply IH in H. simpl. lia.
Qed.

Lemma groups_length (ns : list nat) :
  forall s, groups ns s = true ->
            String.length s = list_sum ns + (List.length ns - 1).
Proof.
  induction ns as [|n ns IH]; intros s H.
  - discriminate.
  - destruct ns as [|m ns].
    + simpl in H. destruct (hex_group n s) as [[|c r]|] eqn:E; try discriminate.
      apply hex_group_length in E. simpl in *. lia.
    + change (groups (n :: m :: ns) s) with
        (match hex_group n s with
         | Some (String "-" s') => groups (m :: ns) s'
         | _ => false
         end) in H.
      destruct (hex_group n s) as [[|c r]|] eqn:E; try discriminate.
      apply hex_group_length in E.
      assert (Hr : groups (m :: ns) r = true).
      { destruct c as [[] [] [] [] [] [] [] []]; try discriminate; exact H. }
      apply IH in Hr. simpl in *. lia.
Qed.

Lemma accepted_shape_length (token : string) :
  accepted_shape token = true ->
  String.length token = 22 \/ String.length token = 36.
Proof.
  unfold accepted_shape. intros H.
  apply orb_true_iff in H as [H | H]; apply groups_length in H; simpl in H;
    [left | right]; exact H.
Qed.

(** X6.  The format check of [getSignupToken] lets a string through
    exactly when the string contains 22 hexadecimal digits in a row or a
    dashed 8-4-4-4-12 group of hexadecimal digits, in either letter case.
    So every token of one of these two shapes passes, and a string of
    fewer than 22 characters (such as [resend-verification]) is answered
    with [next()] without any lookup, in an unchanged world. *)
Theorem X6_format_check (config : Config) (req : Request) (w : World) :
  (re_test (params_token req) = true <->
   exists before word behind,
     params_token req = before ++ word ++ behind /\
     accepted_shape word = true) /\
  (accepted_shape (params_token req) = true ->
   re_test (params_token req) = true) /\
  (String.length (params_token req) < 22 ->
   re_test (params_token req) = false /\
   run config (getSignupToken config req) w = (w, [next_called None])).
Proof.
  split; [apply re_test_contains|].
  split; [apply accepted_shape_re_test|].
  intros Hshort.
  assert (Hre : re_test (params_token req) = false).
  { destruct (re_test (params_token req)) eqn:Hre; [|reflexivity].
    apply re_test_contains in Hre as (a & m & b & E & Hm).
    apply accepted_shape_length in Hm.
    rewrite E, !length_append in Hshort. lia. }
  split; [exact Hre|].
  apply getSignupToken_rejected. exact Hre.
Qed.

Lemma X6_format_check_witness :
  run rest_config
      (getSignupToken rest_config (token_request "resend-verification"))
      (quiet [bob 5000]) = (quiet [bob 5000], [next_called None]).
Proof.
  refine (proj2 (proj2 (proj2
            (X6_format_check rest_config
               (token_request "resend-verification") (quiet [bob 5000]))) _)).
  simpl. lia.
Defined.

(** X7.  A well-formed token that no account carries is answered like a
    malformed one: both get [next()] and nothing else, no account is
    written and no mail is sent; the one difference is the lookup. *)
Theorem X7_unknown_token_like_malformed
        (config : Config) (malformed unknown : Request) (w : World) :
  re_test (params_token malformed) = false ->
  re_test (params_token unknown) = true ->
  fault w = None ->
  findBy by_signupToken (params_token unknown) (accounts w) = None ->
  response (snd (run config (getSignupToken config malformed) w)) =
    [next_called None] /\
  response (snd (run config (getSignupToken config unknown) w)) =
    [next_called None] /\
  effects (snd (run config (getSignupToken config malformed) w)) = [] /\
  effects (snd (run config (getSignupToken config unknown) w)) =
    [find_called by_signupToken (params_token unknown)] /\
  accounts (fst (run config (getSignupToken config malformed) w)) =
    accounts w /\
  accounts (fst (run config (getSignupToken config unknown) w)) = accounts w.
Proof.
  intros Hbad Hgood Hf Hfind.
  rewrite (getSignupToken_rejected config malformed w Hbad).
  rewrite (getSignupToken_unknown config unknown w Hgood Hf Hfind).
  repeat split; reflexivity.
Qed.

Lemma X7_unknown_token_like_malformed_witness :
  response
    (snd (run html_config (getSignupToken html_config (token_request "nonsense"))
              (quiet [bob 5000]))) =
  response
    (snd (run html_config
              (getSignupToken html_config (token_request (sample_uuids 1)))
              (quiet [bob 5000]))).
Proof.
  destruct (@X7_unknown_token_like_malformed html_config
              (token_request "nonsense") (token_request (sample_uuids 1))
              (quiet [bob 5000]))
    as (H1 & H2 & _).
  - vm_compute; reflexivity.
  - vm_compute; reflexivity.
  - reflexivity.
  - reflexivity.
  - rewrite H1, H2. reflexivity.
Defined.

(** X8.  An account whose token is stored without [signupTokenExpires]
    never expires: whatever the clock reads, verification with its token
    takes the verified branch. *)
Theorem X8_token_without_expiry_never_expires
        (config : Config) (req : Request) (w : World) (user : User.t) :
  re_test (params_token req) = true ->
  no_faults w ->
  findBy by_signupToken (params_token req) (accounts w) = Some user ->
  User.signupTokenExpires user = None ->
  run config (getSignupToken config req) w =
    (store (update (verified_at (now (read w)) user) (accounts w))
           (call (read (read (call w)))),
     find_called by_signupToken (params_token req)
     :: update_called (verified_at (now (read w)) user)
     :: emitted "signup" (verified_at (now (read w)) user)
     :: verified_response config req).
Proof.
  intros Hre Hf Hfind Hnone.
  apply getSignupToken_verified; try assumption.
  rewrite Hnone. reflexivity.
Qed.

Lemma X8_token_without_expiry_never_expires_witness :
  snd (run rest_config (getSignupToken rest_config (token_request bob_token))
           (quiet [User.mk "bob" "bob@example.com" "x" "user" false None
                           (Some bob_token) None])) =
  [find_called by_signupToken bob_token;
   update_called
     (User.mk "bob" "bob@example.com" "x" "user" true (Some 1001%Z) None None);
   emitted "signup"
     (User.mk "bob" "bob@example.com" "x" "user" true (Some 1001%Z) None None);
   sent 204].
Proof.
  rewrite (@X8_token_without_expiry_never_expires rest_config
             (token_request bob_token)
             (quiet [User.mk "bob" "bob@example.com" "x" "user" false None
                             (Some bob_token) None])
             (User.mk "bob" "bob@example.com" "x" "user" false None
                      (Some bob_token) None)).
  - reflexivity.
  - vm_compute; reflexivity.
  - intros n; reflexivity.
  - reflexivity.
  - reflexivity.
Defined.

(* ================================================================== *)
(** * Every run, failures included *)
(* ================================================================== *)

(** All the ways a handler can go: every test the run depends on is
    decided both ways. *)
Ltac explore :=
  repeat (cbn [run after fst snd negb];
          match goal with
          | |- context [match ?x with _ => _ end] => destruct x eqn:?
          end).

(** X9.  Every run of a handler answers at most once, and the answer (a
    body sent through [res] or a call of [next]) is the last thing the
    run does, whatever the world and whichever calls fail. *)
Theorem X9_at_most_one_answer (config : Config) (req : Request) (w : World)
        (d : Event) :
  let ends_with_answer (trace : list Event) :=
    answers trace = [] \/ answers trace = [List.last trace d] in
  ends_with_answer (snd (run config (getSignup config req) w)) /\
  ends_with_answer (snd (run config (postSignup config req) w)) /\
  ends_with_answer (snd (run config (getSignupResend config req) w)) /\
  ends_with_answer (snd (run config (postSignupResend config req) w)) /\
  ends_with_answer (snd (run config (getSignupToken config req) w)).
Proof.
  intros ends_with_answer. unfold ends_with_answer.
  repeat split.
  - unfold getSignup. explore; right; reflexivity.
  - unfold postSignup. explore; right; reflexivity.
  - unfold getSignupResend. explore; right; reflexivity.
  - unfold postSignupResend. explore; (right; reflexivity) || (left; reflexivity).
  - unfold getSignupToken. explore; (right; reflexivity) || (left; reflexivity).
Qed.

(** In a leaf of [explore]: the fates of the calls made, as facts about
    the failure plan of the first world. *)
Ltac fates :=
  unfold fault in *;
  cbn [run after fst snd faults calls call read draw store] in *.

(** The call number [n] failed: it is the one call known to have failed. *)
Ltac the_failed_call n Hfault :=
  repeat match goal with
         | H : faults ?w ?k = None |- _ =>
             assert (n <> k) by (intros ->; congruence); clear H
         end;
  try match goal with
      | H : faults ?w ?k = Some _ |- _ =>
          assert (n = k) by lia; subst n; rewrite H in Hfault;
          injection Hfault as ->
      end.

(** X10.  When a call to the adapter or to the mailer fails during a run
    of [postSignup], [postSignupResend] or [getSignupToken], the handler
    passes that error to [next] and answers nothing else, makes no further
    call and emits no event. *)
Theorem X10_failure_ends_the_run (config : Config) (req : Request) (w : World) :
  let fail_stop (h : Handler) :=
    forall n err,
      calls w <= n < calls (fst (run config h w)) ->
      faults w n = Some err ->
      response (snd (run config h w)) = [next_called (Some err)] /\
      calls (fst (run config h w)) = S n /\
      (forall event user, ~ In (emitted event user) (snd (run config h w))) in
  fail_stop (postSignup config req) /\
  fail_stop (postSignupResend config req) /\
  fail_stop (getSignupToken config req).
Proof.
  intros fail_stop. unfold fail_stop. split; [|split].
  all: unfold postSignup, postSignupResend, getSignupToken.
  all: explore; intros n err Hn Hfault; fates; the_failed_call n Hfault;
    try lia.
  all: split; [reflexivity|]; split; [reflexivity|].
  all: intros event user Hin; simpl in Hin; intuition discriminate.
Qed.

Lemma X10_failure_ends_the_run_witness :
  response
    (snd (run html_config
              (postSignup html_config (signup_request "carol" "carol@example.com"))
              (failing_at 2 [alice]))) =
  [next_called (Some "ECONNRESET")].
Proof.
  refine (proj1 (proj1 (X10_failure_ends_the_run html_config
                          (signup_request "carol" "carol@example.com")
                          (failing_at 2 [alice]))
                       2 "ECONNRESET" _ _)).
  - vm_compute. split; apply Nat.le_refl || (repeat constructor).
  - reflexivity.
Defined.

Lemma In_update_self (u user : User.t) (stored : list User.t) :
  In user stored -> User.name u = User.name user -> In u (update u stored).
Proof.
  intros Hin Hname. unfold update. apply in_map_iff.
  exists user. split; [|exact Hin].
  rewrite Hname, String.eqb_refl. reflexivity.
Qed.

Lemma In_update_other (u a : User.t) (stored : list User.t) :
  In a stored -> User.name a <> User.name u -> In a (update u stored).
Proof.
  intros Hin Hname. unfold update. apply in_map_iff.
  exists a. split; [|exact Hin].
  apply String.eqb_neq in Hname. rewrite Hname. reflexivity.
Qed.

(** One event of a concrete trace. *)
Ltac pick_event Hin :=
  simpl in Hin;
  repeat match type of Hin with
         | _ \/ _ => destruct Hin as [Hin | Hin]
         | False => contradiction
         end;
  try discriminate Hin.

(** X11.  Events follow success.  [postSignup] emits only [signup::post],
    and only for an account that is stored and whose signup mail went
    out, and it then answers with the success response; [getSignupToken]
    emits only [signup], and only for an account that is stored as
    verified, without token and expiry; [postSignupResend] emits
    nothing. *)
Theorem X11_events_follow_success
        (config : Config) (req : Request) (w : World)
        (event : string) (user : User.t) :
  (In (emitted event user) (snd (run config (postSignup config req) w)) ->
   event = "signup::post" /\
   In user (accounts (fst (run config (postSignup config req) w))) /\
   In (signup_mailed (User.name user) (User.email user)
                     (User.signupToken user))
      (snd (run config (postSignup config req) w)) /\
   response (snd (run config (postSignup config req) w)) =
     success_response config req) /\
  (In (emitted event user) (snd (run config (getSignupToken config req) w)) ->
   event = "signup" /\
   In user (accounts (fst (run config (getSignupToken config req) w))) /\
   User.emailVerified user = true /\
   User.signupToken user = None /\
   User.signupTokenExpires user = None) /\
  ~ In (emitted event user) (snd (run config (postSignupResend config req) w)).
Proof.
  split; [|split].
  - unfold postSignup, success_response.
    explore; cbn [run after fst snd accounts store]; intros Hin;
      pick_event Hin.
    all: injection Hin as <- <-.
    all: split; [reflexivity|].
    all: split; [apply in_or_app; right; left; reflexivity|].
    all: split; [right; right; right; left; reflexivity | reflexivity].
  - unfold getSignupToken.
    explore; cbn [run after fst snd accounts store]; intros Hin;
      pick_event Hin.
    all: injection Hin as <- <-.
    all: split; [reflexivity|].
    all: split; [|repeat split; reflexivity].
    all: match goal with
         | F : findBy _ _ _ = Some ?u |- _ =>
             apply findBy_In in F as [F _];
             apply (In_update_self _ u); [exact F | reflexivity]
         end.
  - unfold postSignupResend.
    explore; cbn [run after fst snd]; intros Hin; pick_event Hin.
Qed.

Lemma X11_events_follow_success_witness :
  In (verified_at 1001 (bob 5000))
     (accounts
        (fst (run rest_config
                  (getSignupToken rest_config (token_request bob_token))
                  (quiet [alice; bob 5000])))).
Proof.
  refine (proj1 (proj2
            (proj1 (proj2
               (X11_events_follow_success rest_config (token_request bob_token)
                  (quiet [alice; bob 5000]) "signup"
                  (verified_at 1001 (bob 5000)))) _))).
  vm_compute. right; right; left; reflexivity.
Defined.

(* ================================================================== *)
(** * What the handlers keep of the stored accounts *)
(* ================================================================== *)

Lemma findBy_name_None (v : string) (stored : list User.t) :
  findBy by_name v stored = None -> ~ In v (List.map User.name stored).
Proof.
  intros H Hin. apply in_map_iff in Hin as (a & E & Ha).
  apply (List.find_none _ _ H) in Ha. simpl in Ha.
  apply String.eqb_neq in Ha. contradiction.
Qed.

Lemma findBy_email_None (v : string) (stored : list User.t) :
  findBy by_email v stored = None -> ~ In v (List.map User.email stored).
Proof.
  intros H Hin. apply in_map_iff in Hin as (a & E & Ha).
  apply (List.find_none _ _ H) in Ha. simpl in Ha.
  apply String.eqb_neq in Ha. contradiction.
Qed.

Lemma NoDup_snoc (A : Type) (l : list A) (x : A) :
  NoDup l -> ~ In x l -> NoDup (l ++ [x]).
Proof.
  intros Hl Hx. induction Hl as [|y l Hy Hl IH]; simpl.
  - constructor; [intros [] | constructor].
  - constructor.
    + intros Hin. apply in_app_or in Hin as [Hin | [-> | []]].
      * contradiction.
      * apply Hx. left; reflexivity.
    + apply IH. intros Hin. apply Hx. right; exact Hin.
Qed.

Lemma NoDup_map_eq (A B : Type) (f : A -> B) (l : list A) (a b : A) :
  NoDup (List.map f l) -> In a l -> In b l -> f a = f b -> a = b.
Proof.
  induction l as [|x l IH]; simpl; intros Hnd Ha Hb E; [contradiction|].
  inversion Hnd as [|y ys Hx Hl]; subst.
  destruct Ha as [-> | Ha], Hb as [-> | Hb].
  - reflexivity.
  - exfalso. apply Hx. rewrite E. apply in_map. exact Hb.
  - exfalso. apply Hx. rewrite <- E. apply in_map. exact Ha.
  - apply IH; assumption.
Qed.

(** [update] with an object that agrees with the stored account of its
    name on [g] keeps [g] on all accounts. *)
Lemma map_update (B : Type) (g : User.t -> B) (u user : User.t)
      (stored : list User.t) :
  NoDup (List.map User.name stored) ->
  In user stored ->
  User.name u = User.name user ->
  g u = g user ->
  List.map g (update u stored) = List.map g stored.
Proof.
  intros Hnd Hin Hname Hg. unfold update. rewrite map_map.
  apply map_ext_in. intros a Ha.
  destruct (String.eqb_spec (User.name a) (User.name u)) as [E | _];
    [|reflexivity].
  rewrite Hg. f_equal. symmetry.
  apply (NoDup_map_eq User.name stored); auto. congruence.
Qed.

(** X12.  The handlers keep names and addresses unique: when no two stored
    accounts share a name and no two share an address, the same holds
    after every run of [postSignup], [postSignupResend] and
    [getSignupToken], whichever calls fail. *)
Theorem X12_accounts_stay_unique (config : Config) (req : Request) (w : World) :
  unique_accounts (accounts w) ->
  unique_accounts (accounts (fst (run config (postSignup config req) w))) /\
  unique_accounts (accounts (fst (run config (postSignupResend config req) w))) /\
  unique_accounts (accounts (fst (run config (getSignupToken config req) w))).
Proof.
  intros [Hnames Hemails]. split; [|split].
  - unfold postSignup.
    explore; cbn [run after fst snd accounts store call read draw] in *;
      try (split; assumption).
    all: unfold unique_accounts; rewrite !map_app; cbn [List.map save User.name User.email].
    all: split; apply NoDup_snoc; auto using findBy_name_None, findBy_email_None.
  - unfold postSignupResend.
    explore; cbn [run after fst snd accounts store call read draw] in *;
      try (split; assumption).
    all: match goal with
         | F : findBy _ _ _ = Some ?u |- _ =>
             apply findBy_In in F as [F _]; unfold unique_accounts;
             rewrite !(fun B (g : User.t -> B) x =>
                         @map_update B g x u (accounts w) Hnames F)
               by reflexivity
         end.
    all: split; assumption.
  - unfold getSignupToken.
    explore; cbn [run after fst snd accounts store call read draw] in *;
      try (split; assumption).
    all: match goal with
         | F : findBy _ _ _ = Some ?u |- _ =>
             apply findBy_In in F as [F _]; unfold unique_accounts;
             rewrite !(fun B (g : User.t -> B) x =>
                         @map_update B g x u (accounts w) Hnames F)
               by reflexivity
         end.
    all: split; assumption.
Qed.

Lemma X12_accounts_stay_unique_witness :
  unique_accounts
    (accounts
       (fst (run html_config
                 (postSignup html_config
                             (signup_request "carol" "carol@example.com"))
                 (quiet [alice; bob 5000])))).
Proof.
  refine (proj1 (X12_accounts_stay_unique html_config
                   (signup_request "carol" "carol@example.com")
                   (quiet [alice; bob 5000]) _)).
  split; repeat constructor; simpl; intuition discriminate.
Defined.

(** X13.  The handlers never remove an account and never change a name,
    an address, a password or a type: with unique names, the stored
    accounts have the same [identity], in the same order, after every run
    of [postSignupResend] and [getSignupToken]; and every run of
    [postSignup] leaves the stored accounts as they are and appends at
    most one. *)
Theorem X13_identity_is_kept (config : Config) (req : Request) (w : World) :
  NoDup (List.map User.name (accounts w)) ->
  List.map identity
           (accounts (fst (run config (postSignupResend config req) w))) =
    List.map identity (accounts w) /\
  List.map identity
           (accounts (fst (run config (getSignupToken config req) w))) =
    List.map identity (accounts w) /\
  exists new : list User.t,
    accounts (fst (run config (postSignup config req) w)) =
      (accounts w ++ new)%list /\
    List.length new <= 1.
Proof.
  intros Hnames. split; [|split].
  - unfold postSignupResend.
    explore; cbn [run after fst snd accounts store call read draw] in *;
      try reflexivity.
    all: match goal with
         | F : findBy _ _ _ = Some ?u |- _ =>
             apply findBy_In in F as [F _];
             apply (@map_update _ identity _ u (accounts w) Hnames F);
             reflexivity
         end.
  - unfold getSignupToken.
    explore; cbn [run after fst snd accounts store call read draw] in *;
      try reflexivity.
    all: match goal with
         | F : findBy _ _ _ = Some ?u |- _ =>
             apply findBy_In in F as [F _];
             apply (@map_update _ identity _ u (accounts w) Hnames F);
             reflexivity
         end.
  - unfold postSignup.
    explore; cbn [run after fst snd accounts store call read draw] in *.
    all: first [ exists []; split; [symmetry; apply app_nil_r | simpl; lia]
               | eexists [_]; split; [reflexivity | simpl; lia] ].
Qed.

Lemma X13_identity_is_kept_witness :
  List.map identity
           (accounts
              (fst (run html_config
                        (postSignupResend html_config
                                          (resend_request "alice@example.com"))
                        (quiet [alice; bob 5000])))) =
  List.map identity (accounts (quiet [alice; bob 5000])).
Proof.
  refine (proj1 (X13_identity_is_kept html_config
                   (resend_request "alice@example.com")
                   (quiet [alice; bob 5000]) _)).
  repeat constructor; simpl; intuition discriminate.
Defined.

Lemma update_keeps_verified (u user : User.t) (stored : list User.t) :
  NoDup (List.map User.name stored) ->
  In user stored ->
  identity u = identity user ->
  (User.emailVerified user = true -> User.emailVerified u = true) ->
  forall a,
    In a stored -> User.emailVerified a = true ->
    exists a',
      In a' (update u stored) /\ identity a' = identity a /\
      User.emailVerified a' = true.
Proof.
  intros Hnd Hin Hid Hv a Ha Hverified.
  assert (Hname : User.name u = User.name user)
    by (unfold identity in Hid; congruence).
  destruct (String.eqb_spec (User.name a) (User.name u)) as [E | Hne].
  - assert (a = user)
      by (apply (NoDup_map_eq User.name stored); auto; congruence).
    subst a. exists u. split; [eapply In_update_self; eauto|]. auto.
  - exists a. split; [apply In_update_other; auto|]. auto.
Qed.

(** X14.  Verification is final: with unique names, every stored account
    that is verified is still stored, with the same identity, and still
    verified after every run of [postSignup], [postSignupResend] and
    [getSignupToken], whichever calls fail. *)
Theorem X14_verified_stays_verified
        (config : Config) (req : Request) (w : World) (a : User.t) :
  NoDup (List.map User.name (accounts w)) ->
  In a (accounts w) ->
  User.emailVerified a = true ->
  let still_verified (w' : World) :=
    exists a',
      In a' (accounts w') /\ identity a' = identity a /\
      User.emailVerified a' = true in
  still_verified (fst (run config (postSignup config req) w)) /\
  still_verified (fst (run config (postSignupResend config req) w)) /\
  still_verified (fst (run config (getSignupToken config req) w)).
Proof.
  intros Hnames Ha Hv still_verified. unfold still_verified.
  split; [|split].
  - unfold postSignup.
    explore; cbn [run after fst snd accounts store call read draw] in *.
    all: exists a; split; [|auto].
    all: try assumption.
    all: apply in_or_app; left; assumption.
  - unfold postSignupResend.
    explore; cbn [run after fst snd accounts store call read draw] in *.
    all: try (exists a; split; [assumption | auto]).
    all: match goal with
         | F : findBy _ _ _ = Some ?u |- _ =>
             apply findBy_In in F as [F _];
             apply (update_keeps_verified _ Hnames F); auto
         end.
  - unfold getSignupToken.
    explore; cbn [run after fst snd accounts store call read draw] in *.
    all: try (exists a; split; [assumption | auto]).
    all: match goal with
         | F : findBy _ _ _ = Some ?u |- _ =>
             apply findBy_In in F as [F _];
             apply (update_keeps_verified _ Hnames F); auto
         end.
Qed.

Lemma X14_verified_stays_verified_witness :
  exists a',
    In a' (accounts
             (fst (run html_config
                       (postSignupResend html_config
                                         (resend_request "alice@example.com"))
                       (quiet [alice; bob 5000])))) /\
    identity a' = identity alice /\ User.emailVerified a' = true.
Proof.
  refine (proj1 (proj2
            (@X14_verified_stays_verified html_config
               (resend_request "alice@example.com")
               (quiet [alice; bob 5000]) alice _ _ _))).
  - repeat constructor; simpl; intuition discriminate.
  - left; reflexivity.
  - reflexivity.
Defined.

Lemma update_keeps_verified_without_token (u : User.t) (stored : list User.t) :
  verified_without_token stored ->
  (User.emailVerified u = true ->
   User.signupToken u = None /\ User.signupTokenExpires u = None) ->
  verified_without_token (update u stored).
Proof.
  intros Hs Hu a Ha Hv. apply In_update in Ha as [-> | [Ha _]]; auto.
Qed.

(** X15.  With REST active the handlers keep every verified account
    without token: when no verified stored account carries a token or an
    expiry, the same holds after every run of [postSignup],
    [postSignupResend] and [getSignupToken], whichever calls fail. *)
Theorem X15_verified_accounts_carry_no_token_under_rest
        (config : Config) (req : Request) (w : World) :
  rest config = true ->
  verified_without_token (accounts w) ->
  verified_without_token
    (accounts (fst (run config (postSignup config req) w))) /\
  verified_without_token
    (accounts (fst (run config (postSignupResend config req) w))) /\
  verified_without_token
    (accounts (fst (run config (getSignupToken config req) w))).
Proof.
  intros Hrest Hw. split; [|split].
  - unfold postSignup.
    explore; cbn [run after fst snd accounts store call read draw] in *;
      try assumption.
    all: intros a Ha Hv; apply in_app_or in Ha as [Ha | [<- | []]];
      [apply Hw; assumption | discriminate Hv].
  - unfold postSignupResend. rewrite Hrest.
    explore; cbn [run after fst snd accounts store call read draw] in *;
      try assumption.
    all: apply update_keeps_verified_without_token; [assumption|].
    all: cbn [User.emailVerified User.set_signupToken
              User.set_signupTokenExpires].
    all: match goal with
         | G : User.emailVerified ?u && true = false |- _ =>
             rewrite andb_true_r in G; rewrite G; discriminate
         end.
  - unfold getSignupToken.
    explore; cbn [run after fst snd accounts store call read draw] in *;
      try assumption.
    all: apply update_keeps_verified_without_token; [assumption|].
    all: try (intros _; split; reflexivity).
    all: match goal with
         | F : findBy _ _ _ = Some ?u |- _ =>
             apply findBy_In in F as [F _];
             intros Hv; destruct (Hw u F Hv) as [_ He];
             split; [reflexivity | exact He]
         end.
Qed.

Lemma X15_verified_accounts_carry_no_token_under_rest_witness :
  verified_without_token
    (accounts
       (fst (run rest_config
                 (postSignupResend rest_config
                                   (resend_request "alice@example.com"))
                 (quiet [alice; bob 5000])))).
Proof.
  refine (proj1 (proj2
            (@X15_verified_accounts_carry_no_token_under_rest rest_config
               (resend_request "alice@example.com")
               (quiet [alice; bob 5000]) _ _))).
  - reflexivity.
  - intros a [<- | [<- | []]] Hv; [split; reflexivity | discriminate Hv].
Defined.

(* ================================================================== *)
(** * How the handlers compose *)
(* ================================================================== *)

Lemma findBy_app_fresh (field : Field) (value : string)
      (stored : list User.t) (u : User.t) :
  findBy field value stored = None ->
  field_is field value u = true ->
  findBy field value (stored ++ [u]) = Some u.
Proof.
  unfold findBy. intros Hnone Hu.
  induction stored as [|a stored IH]; cbn [find app] in *.
  - rewrite Hu. reflexivity.
  - destruct (field_is field value a); [discriminate | auto].
Qed.

Lemma findBy_token_None (token : string) (stored : list User.t) :
  (forall a, In a stored -> User.signupToken a <> Some token) ->
  findBy by_signupToken token stored = None.
Proof.
  intros H. unfold findBy. induction stored as [|a stored IH]; cbn [find].
  - reflexivity.
  - destruct (field_is by_signupToken token a) eqn:E.
    + apply field_is_token in E. exfalso. apply (H a); [left; reflexivity | exact E].
    + apply IH. intros b Hb. apply H. right; exact Hb.
Qed.

(** X16.  Signup, then verification.  A valid signup with a free name and
    address stores an unverified account and mails it the next uuid as
    its token; when that uuid has the format the check asks for and no
    stored account carried it, verification with the mailed token, up to
    the token's lifetime after the signup, marks this account verified
    and without token, and the name finds the verified account. *)
Theorem X16_signup_then_verification
        (config : Config) (req verify : Request) (w : World) :
  signup_error_of req = None ->
  no_faults w ->
  findBy by_name (str (body_name req)) (accounts w) = None ->
  findBy by_email (str (body_email req)) (accounts w) = None ->
  re_test (uuid w) = true ->
  (forall a, In a (accounts w) -> User.signupToken a <> Some (uuid w)) ->
  params_token verify = uuid w ->
  (now (read w) <= now w + tokenExpiration config)%Z ->
  exists created w1 w2,
    run config (postSignup config req) w =
      (w1,
       find_called by_name (str (body_name req))
       :: find_called by_email (str (body_email req))
       :: save_called (str (body_name req)) (str (body_email req))
                      (str (body_password req)) (str (body_type req))
       :: signup_mailed (str (body_name req)) (str (body_email req))
                        (Some (uuid w))
       :: emitted "signup::post" created
       :: success_response config req) /\
    accounts w1 = (accounts w ++ [created])%list /\
    User.emailVerified created = false /\
    User.signupToken created = Some (uuid w) /\
    run config (getSignupToken config verify) w1 =
      (w2,
       find_called by_signupToken (uuid w)
       :: update_called (verified_at (now (read w1)) created)
       :: emitted "signup" (verified_at (now (read w1)) created)
       :: verified_response config verify) /\
    findBy by_name (str (body_name req)) (accounts w2) =
      Some (verified_at (now (read w1)) created).
Proof.
  intros Hvalid Hf Hname Hemail Hre Hfresh Htoken Hlive.
  pose (created := save config (str (body_name req)) (str (body_email req))
                        (str (body_password req)) (str (body_type req)) w).
  pose (w1 := store (accounts w ++ [created])
                    (call (read (draw (call (call (call w))))))).
  assert (Hf1 : no_faults w1) by (unfold w1; auto 10 with faults).
  assert (Hfind : findBy by_signupToken (params_token verify) (accounts w1)
                  = Some created).
  { rewrite Htoken. apply findBy_app_fresh.
    - apply findBy_token_None. exact Hfresh.
    - apply field_is_token. reflexivity. }
  assert (Hre' : re_test (params_token verify) = true)
    by (rewrite Htoken; exact Hre).
  exists created, w1.
  eexists. split.
  { apply postSignup_fresh; assumption. }
  split; [reflexivity|].
  split; [reflexivity|].
  split; [reflexivity|].
  split.
  { rewrite <- Htoken.
    apply (@getSignupToken_verified config verify w1 created Hre' Hf1 Hfind).
    change (Date_lt (Some (now w + tokenExpiration config)%Z) (now (read w))
            = false).
    simpl. apply Z.ltb_ge. exact Hlive. }
  cbn [accounts store].
  apply (findBy_name_update (verified_at (now (read w1)) created)).
  exists created. split; [|reflexivity].
  apply in_or_app. right. left. reflexivity.
Qed.

Lemma X16_signup_then_verification_witness :
  exists created w1 w2,
    run rest_config (postSignup rest_config
                                (signup_request "carol" "carol@example.com"))
        (quiet [alice]) =
      (w1,
       find_called by_name "carol"
       :: find_called by_email "carol@example.com"
       :: save_called "carol" "carol@example.com" "x" "user"
       :: signup_mailed "carol" "carol@example.com" (Some (sample_uuids 0))
       :: emitted "signup::post" created
       :: success_response rest_config
            (signup_request "carol" "carol@example.com")) /\
    accounts w1 = ([alice] ++ [created])%list /\
    User.emailVerified created = false /\
    User.signupToken created = Some (sample_uuids 0) /\
    run rest_config
        (getSignupToken rest_config (token_request (sample_uuids 0))) w1 =
      (w2,
       find_called by_signupToken (sample_uuids 0)
       :: update_called (verified_at (now (read w1)) created)
       :: emitted "signup" (verified_at (now (read w1)) created)
       :: verified_response rest_config (token_request (sample_uuids 0))) /\
    findBy by_name "carol" (accounts w2) =
      Some (verified_at (now (read w1)) created).
Proof.
  apply (@X16_signup_then_verification rest_config
           (signup_request "carol" "carol@example.com")
           (token_request (sample_uuids 0)) (quiet [alice])).
  - reflexivity.
  - intros n; reflexivity.
  - reflexivity.
  - reflexivity.
  - vm_compute; reflexivity.
  - intros a [<- | []]; discriminate.
  - reflexivity.
  - vm_compute; intros H; discriminate H.
Defined.

(** X17.  An expired token is used up, and the account can ask for a new
    one.  Verification with a token whose expiry lies before the current
    time stores the account without the token and unverified; a second
    verification with the same token finds no account and calls
    [next()]; and a resend request for the address of the account then
    stores and mails the next uuid as its new token. *)
Theorem X17_expired_token_then_resend
        (config : Config) (req resend : Request) (w : World) (user : User.t)
        (expires : Z) :
  re_test (params_token req) = true ->
  no_faults w ->
  findBy by_signupToken (params_token req) (accounts w) = Some user ->
  (forall a, In a (accounts w) ->
             User.signupToken a = Some (params_token req) ->
             User.name a = User.name user) ->
  User.signupTokenExpires user = Some expires ->
  (expires < now w)%Z ->
  User.emailVerified user = false ->
  resend_error (body_email resend) = None ->
  findBy by_email (str (body_email resend)) (accounts w) = Some user ->
  exists w1 w2,
    run config (getSignupToken config req) w =
      (w1,
       find_called by_signupToken (params_token req)
       :: update_called (User.delete_signupToken user)
       :: expired_response config req) /\
    findBy by_name (User.name user) (accounts w1) =
      Some (User.delete_signupToken user) /\
    run config (getSignupToken config req) w1 =
      (call w1,
       [find_called by_signupToken (params_token req); next_called None]) /\
    run config (postSignupResend config resend) w1 =
      (w2,
       find_called by_email (str (body_email resend))
       :: update_called
            (reissued (uuid w) (now (read w) + tokenExpiration config)
                      (User.delete_signupToken user))
       :: resend_mailed (User.name user) (str (body_email resend)) (uuid w)
       :: success_response config resend) /\
    findBy by_email (str (body_email resend)) (accounts w2) =
      Some (reissued (uuid w) (now (read w) + tokenExpiration config)
                     (User.delete_signupToken user)).
Proof.
  intros Hre Hf Hfind Honly Hexp Hpast Hunverified Hvalid Hmail.
  pose (w1 := store (update (User.delete_signupToken user) (accounts w))
                    (call (read (call w)))).
  assert (Hf1 : no_faults w1) by (unfold w1; auto 10 with faults).
  assert (Hemail : User.email user = str (body_email resend))
    by (eapply findBy_email_eq; eassumption).
  assert (Hmail1 : findBy by_email (str (body_email resend)) (accounts w1)
                   = Some (User.delete_signupToken user)).
  { apply findBy_email_update with (user := user);
      [exact Hmail | reflexivity | exact Hemail]. }
  exists w1. eexists. split.
  { apply getSignupToken_expired; try assumption.
    rewrite Hexp. simpl. apply Z.ltb_lt. exact Hpast. }
  split.
  { apply (findBy_name_update (User.delete_signupToken user)).
    exists user. split; [|reflexivity]. apply (findBy_In _ _ _ Hfind). }
  split.
  { apply getSignupToken_unknown.
    - exact Hre.
    - apply no_faults_fault. exact Hf1.
    - apply findBy_token_update_cleared; [exact Honly | discriminate]. }
  split.
  { apply (@postSignupResend_reissues config resend w1 Hvalid
             (User.delete_signupToken user) Hmail1 Hf1).
    change (User.emailVerified (User.delete_signupToken user))
      with (User.emailVerified user).
    rewrite Hunverified. reflexivity. }
  cbn [accounts store].
  apply findBy_email_update with (user := User.delete_signupToken user);
    [exact Hmail1 | reflexivity | exact Hemail].
Qed.

Lemma X17_expired_token_then_resend_witness :
  exists w1 w2,
    run rest_config (getSignupToken rest_config (token_request bob_token))
        (quiet [alice; bob 900]) =
      (w1,
       find_called by_signupToken bob_token
       :: update_called (User.delete_signupToken (bob 900))
       :: expired_response rest_config (token_request bob_token)) /\
    findBy by_name "bob" (accounts w1) =
      Some (User.delete_signupToken (bob 900)) /\
    run rest_config (getSignupToken rest_config (token_request bob_token)) w1 =
      (call w1, [find_called by_signupToken bob_token; next_called None]) /\
    run rest_config
        (postSignupResend rest_config (resend_request "bob@example.com")) w1 =
      (w2,
       find_called by_email "bob@example.com"
       :: update_called
            (reissued (sample_uuids 0) (1001 + 86400000)
                      (User.delete_signupToken (bob 900)))
       :: resend_mailed "bob" "bob@example.com" (sample_uuids 0)
       :: success_response rest_config (resend_request "bob@example.com")) /\
    findBy by_email "bob@example.com" (accounts w2) =
      Some (reissued (sample_uuids 0) (1001 + 86400000)
                     (User.delete_signupToken (bob 900))).
Proof.
  apply (@X17_expired_token_then_resend rest_config
           (token_request bob_token) (resend_request "bob@example.com")
           (quiet [alice; bob 900]) (bob 900) 900).
  - vm_compute; reflexivity.
  - intros n; reflexivity.
  - reflexivity.
  - intros a [<- | [<- | []]]; simpl; intros H;
      [discriminate H | reflexivity].
  - reflexivity.
  - reflexivity.
  - reflexivity.
  - reflexivity.
  - reflexivity.
Defined.

(** X18.  With REST active [postSignupResend] refuses a well-formed
    address that no account has with [signup.10] and the address of a
    verified account with [signup.11]; in both cases nothing is written,
    no uuid is drawn and no mail is sent.  Every other found account is
    given the next uuid as its token, with the expiry one lifetime after
    the current time, and this token is the one mailed. *)
Theorem X18_resend_under_rest (config : Config) (req : Request) (w : World) :
  rest config = true ->
  resend_error (body_email req) = None ->
  no_faults w ->
  match findBy by_email (str (body_email req)) (accounts w) with
  | None =>
      run config (postSignupResend config req) w =
        (call w, [find_called by_email (str (body_email req));
                  json_sent 403 {| code := "signup.10" |}])
  | Some user =>
      if User.emailVerified user then
        run config (postSignupResend config req) w =
          (call w, [find_called by_email (str (body_email req));
                    json_sent 403 {| code := "signup.11" |}])
      else
        run config (postSignupResend config req) w =
          (store (update (reissued (uuid w) (now w + tokenExpiration config)
                                   user)
                         (accounts w))
                 (call (call (read (draw (call w))))),
           [find_called by_email (str (body_email req));
            update_called
              (reissued (uuid w) (now w + tokenExpiration config) user);
            resend_mailed (User.name user) (str (body_email req)) (uuid w);
            sent 204])
  end.
Proof.
  intros Hrest Hvalid Hf.
  destruct (findBy by_email (str (body_email req)) (accounts w)) as [user|]
    eqn:Hfind.
  - destruct (User.emailVerified user) eqn:Hv.
    + apply postSignupResend_verified_rest with (user := user); auto with faults.
    + rewrite (@postSignupResend_reissues config req w Hvalid user Hfind Hf).
      * unfold success_response. rewrite Hrest. reflexivity.
      * rewrite Hv. reflexivity.
  - apply postSignupResend_absent_rest; auto with faults.
Qed.

Lemma X18_resend_under_rest_witness :
  run rest_config
      (postSignupResend rest_config (resend_request "alice@example.com"))
      (quiet [alice; bob 5000]) =
    (call (quiet [alice; bob 5000]),
     [find_called by_email "alice@example.com";
      json_sent 403 {| code := "signup.11" |}]).
Proof.
  exact (@X18_resend_under_rest rest_config
           (resend_request "alice@example.com") (quiet [alice; bob 5000])
           eq_refl eq_refl (fun n => eq_refl)).
Defined.

(** X19.  A request touches one account only: with unique names, every
    stored account that does not carry the token of a verification
    request is stored unchanged after the run of [getSignupToken], and
    every stored account with another address than the one of a resend
    request is stored unchanged after the run of [postSignupResend],
    whichever calls fail. *)
Theorem X19_other_accounts_untouched
        (config : Config) (req : Request) (w : World) (a : User.t) :
  NoDup (List.map User.name (accounts w)) ->
  In a (accounts w) ->
  (User.signupToken a <> Some (params_token req) ->
   In a (accounts (fst (run config (getSignupToken config req) w)))) /\
  (User.email a <> str (body_email req) ->
   In a (accounts (fst (run config (postSignupResend config req) w)))).
Proof.
  intros Hnames Ha. split.
  - intros Hother. unfold getSignupToken.
    explore; cbn [run after fst snd accounts store call read draw] in *;
      try assumption.
    all: match goal with
         | F : findBy _ _ _ = Some ?u |- _ =>
             apply findBy_In in F as [F Hu]; apply field_is_token in Hu
         end.
    all: apply In_update_other; [assumption|].
    all: intros E; apply Hother.
    all: match goal with
         | F : In ?u _ |- _ =>
             rewrite (NoDup_map_eq User.name (accounts w) a u Hnames Ha F E);
             assumption
         end.
  - intros Hother. unfold postSignupResend.
    explore; cbn [run after fst snd accounts store call read draw] in *;
      try assumption.
    all: match goal with
         | F : findBy _ _ _ = Some ?u |- _ =>
             apply findBy_In in F as [F Hu]; apply String.eqb_eq in Hu
         end.
    all: apply In_update_other; [assumption|].
    all: intros E; apply Hother.
    all: match goal with
         | F : In ?u _ |- _ =>
             rewrite (NoDup_map_eq User.name (accounts w) a u Hnames Ha F E);
             assumption
         end.
Qed.

Lemma X19_other_accounts_untouched_witness :
  In alice
     (accounts
        (fst (run rest_config
                  (getSignupToken rest_config (token_request bob_token))
                  (quiet [alice; bob 5000])))).
Proof.
  refine (proj1
            (@X19_other_accounts_untouched rest_config
               (token_request bob_token) (quiet [alice; bob 5000]) alice _ _)
            _).
  - repeat constructor; simpl; intuition discriminate.
  - left; reflexivity.
  - discriminate.
Defined.

Lemma X1_email_match_shape_witness :
  email_match "bob.smith+news@mail.example.com" = true.
Proof.
  apply (proj2 (X1_email_match_shape "bob.smith+news@mail.example.com")).
  exists "bob.smith+news", "mail.example", "com".
  repeat split; try reflexivity; try discriminate; simpl; lia.
Defined.

Lemma X2_accepted_signups_witness :
  signup_error_of (signup_request "bob_2" "bob@example.com") = None.
Proof.
  apply (proj2 (X2_accepted_signups (signup_request "bob_2" "bob@example.com"))).
  exists "bob_2", "bob@example.com", "x", "user".
  repeat split; try reflexivity; discriminate.
Defined.

(* ================================================================== *)
(** * The input checks of [postSignup] on text in full *)
(* ================================================================== *)

Lemma UTF16_eqb_eq (a : UTF16.text) :
  forall b, UTF16.eqb a b = true <-> a = b.
Proof.
  induction a as [|u a IH]; intros [|v b]; simpl;
    try (split; [discriminate | discriminate]).
  - tauto.
  - rewrite andb_true_iff, N.eqb_eq, IH. split.
    + intros [-> ->]. reflexivity.
    + intros E. injection E as -> ->. auto.
Qed.

Lemma in_class_bound (p : ascii -> bool) (u : N) :
  UTF16.in_class p u = true -> (u < 256)%N /\ p (ascii_of_N u) = true.
Proof.
  unfold UTF16.in_class. rewrite andb_true_iff, N.ltb_lt. auto.
Qed.

Lemma in_class_no_surrogate (p : ascii -> bool) (u : N) :
  UTF16.in_class p u = true ->
  UTF16.trail_surrogate u = false /\ UTF16.lead_surrogate u = false.
Proof.
  intros H. apply in_class_bound in H as [H _].
  unfold UTF16.trail_surrogate, UTF16.lead_surrogate. split.
  - apply andb_false_iff. left. apply N.leb_gt. lia.
  - apply andb_false_iff. left. apply N.leb_gt. lia.
Qed.

Lemma escape_shape (v : N) :
  exists d1 d2 more, UTF16.escape v = 37%N :: d1 :: d2 :: more.
Proof.
  unfold UTF16.escape, UTF16.utf8.
  destruct (N.ltb v 128); [|destruct (N.ltb v 2048); [|destruct (N.ltb v 65536)]];
    simpl; eauto.
Qed.

Lemma encodeURIComponent_text_length (n : nat) :
  forall t e,
    List.length t <= n ->
    UTF16.encodeURIComponent t = Some e ->
    List.length t <= List.length e.
Proof.
  induction n as [|n IH]; intros [|u t] e Hn H; simpl in *; try lia.
  destruct (UTF16.in_class unreserved u).
  - destruct (UTF16.encodeURIComponent t) as [e'|] eqn:E; [|discriminate].
    injection H as <-. simpl. apply IH in E; lia.
  - destruct (UTF16.trail_surrogate u); [discriminate|].
    destruct (UTF16.lead_surrogate u).
    + destruct t as [|v t]; [discriminate|].
      destruct (UTF16.trail_surrogate v); [|discriminate].
      destruct (UTF16.encodeURIComponent t) as [e'|] eqn:E; [|discriminate].
      injection H as <-.
      destruct (escape_shape (UTF16.code_point u v)) as (d1 & d2 & more & ->).
      simpl in *. rewrite length_app. apply IH in E; lia.
    + destruct (UTF16.encodeURIComponent t) as [e'|] eqn:E; [|discriminate].
      injection H as <-.
      destruct (escape_shape u) as (d1 & d2 & more & ->).
      simpl. rewrite length_app. apply IH in E; lia.
Qed.

(** A text equals its percent-encoding exactly when all its characters are
    unreserved. *)
Lemma encodeURIComponent_text_fixed (t : UTF16.text) :
  UTF16.encodeURIComponent t = Some t <->
  forallb (UTF16.in_class unreserved) t = true.
Proof.
  induction t as [|u t IH]; simpl; [tauto|].
  destruct (UTF16.in_class unreserved u) eqn:Hu; simpl.
  - rewrite <- IH.
    destruct (UTF16.encodeURIComponent t) as [e|]; simpl; split;
      intros H; try discriminate; inversion H; subst; reflexivity.
  - split; [|discriminate]. intros H. exfalso.
    destruct (UTF16.trail_surrogate u); [discriminate|].
    destruct (UTF16.lead_surrogate u) eqn:Hlead.
    + destruct t as [|v t]; [discriminate|].
      destruct (UTF16.trail_surrogate v); [|discriminate].
      destruct (UTF16.encodeURIComponent t) as [e'|]; [|discriminate].
      destruct (escape_shape (UTF16.code_point u v)) as (d1 & d2 & more & E).
      rewrite E in H. simpl in H. injection H as <- _.
      discriminate Hlead.
    + destruct (UTF16.encodeURIComponent t) as [e'|] eqn:E; [|discriminate].
      apply (@encodeURIComponent_text_length (List.length t) t e'
               (Nat.le_refl _)) in E.
      destruct (escape_shape u) as (d1 & d2 & more & Es).
      rewrite Es in H. simpl in H. injection H as _ Ht.
      apply (f_equal (@List.length N)) in Ht.
      simpl in Ht. rewrite length_app in Ht. lia.
Qed.

(** [encodeURIComponent] throws exactly on the texts that are not
    well-formed. *)
Lemma encodeURIComponent_text_throws (n : nat) :
  forall t,
    List.length t <= n ->
    (UTF16.encodeURIComponent t = None <-> UTF16.well_formed t = false).
Proof.
  induction n as [|n IH]; intros [|u t] Hn; simpl in *; try lia.
  - split; discriminate.
  - split; discriminate.
  - destruct (UTF16.in_class unreserved u) eqn:Hu.
    + destruct (in_class_no_surrogate _ _ Hu) as [-> ->].
      rewrite <- (IH t) by lia.
      destruct (UTF16.encodeURIComponent t); simpl; split; intros H;
        first [discriminate H | reflexivity].
    + destruct (UTF16.trail_surrogate u); [tauto|].
      destruct (UTF16.lead_surrogate u).
      * destruct t as [|v t]; [tauto|].
        destruct (UTF16.trail_surrogate v); simpl; [|tauto].
        rewrite <- (IH t) by (simpl in Hn; lia).
        destruct (UTF16.encodeURIComponent t); simpl; split; intros H;
        first [discriminate H | reflexivity].
      * rewrite <- (IH t) by lia.
        destruct (UTF16.encodeURIComponent t); simpl; split; intros H;
        first [discriminate H | reflexivity].
Qed.

Lemma encodeURIComponent_throws_iff (t : UTF16.text) :
  UTF16.encodeURIComponent t = None <-> UTF16.well_formed t = false.
Proof.
  apply (@encodeURIComponent_text_throws (List.length t) t). apply Nat.le_refl.
Qed.

(** ** 8-bit text inside text in full *)

Lemma of_string_cons (c : ascii) (s : string) :
  UTF16.of_string (String c s) = N_of_ascii c :: UTF16.of_string s.
Proof.
  reflexivity.
Qed.

Lemma of_string_app (a b : string) :
  UTF16.of_string (a ++ b) = (UTF16.of_string a ++ UTF16.of_string b)%list.
Proof.
  induction a as [|c a IH]; [reflexivity|].
  simpl append. rewrite !of_string_cons, IH. reflexivity.
Qed.

Lemma in_class_of_ascii (p : ascii -> bool) (c : ascii) :
  UTF16.in_class p (N_of_ascii c) = p c.
Proof.
  unfold UTF16.in_class. rewrite ascii_N_embedding.
  assert (H := N_ascii_bounded c). apply N.ltb_lt in H. rewrite H.
  reflexivity.
Qed.

Lemma forallb_of_string (p : ascii -> bool) (s : string) :
  forallb (UTF16.in_class p) (UTF16.of_string s) = all p s.
Proof.
  induction s as [|c s IH]; [reflexivity|].
  rewrite of_string_cons. simpl. rewrite in_class_of_ascii, IH. reflexivity.
Qed.

Lemma to_string_of_string (s : string) :
  UTF16.to_string (UTF16.of_string s) = Some s.
Proof.
  induction s as [|c s IH]; [reflexivity|].
  rewrite of_string_cons. simpl.
  assert (H := N_ascii_bounded c). apply N.ltb_lt in H.
  rewrite H, IH, ascii_N_embedding. reflexivity.
Qed.

Lemma matches_of_string (r : regex) (s : string) :
  UTF16.matches r (UTF16.of_string s) = matches r s.
Proof.
  unfold UTF16.matches. rewrite to_string_of_string. reflexivity.
Qed.

Lemma eqb_of_string (a : string) :
  forall b, UTF16.eqb (UTF16.of_string a) (UTF16.of_string b) = String.eqb a b.
Proof.
  induction a as [|c a IH]; intros [|d b]; try reflexivity.
  rewrite !of_string_cons. simpl. rewrite IH.
  destruct (Ascii.eqb_spec c d) as [-> | Hne].
  - rewrite N.eqb_refl. reflexivity.
  - destruct (N.eqb_spec (N_of_ascii c) (N_of_ascii d)) as [E | _];
      [|reflexivity].
    exfalso. apply Hne.
    rewrite <- (ascii_N_embedding c), <- (ascii_N_embedding d), E.
    reflexivity.
Qed.

Lemma escape_of_ascii (c : ascii) :
  UTF16.escape (N_of_ascii c) = UTF16.of_string (utf8_escape c).
Proof.
  destruct c as [[] [] [] [] [] [] [] []]; reflexivity.
Qed.

Lemma encodeURIComponent_of_string (s : string) :
  UTF16.encodeURIComponent (UTF16.of_string s) =
  Some (UTF16.of_string (encodeURIComponent s)).
Proof.
  induction s as [|c s IH]; [reflexivity|].
  rewrite of_string_cons. simpl. rewrite in_class_of_ascii, IH.
  destruct (unreserved c) eqn:Hc; simpl.
  - reflexivity.
  - assert (Hs : UTF16.trail_surrogate (N_of_ascii c) = false /\
                 UTF16.lead_surrogate (N_of_ascii c) = false).
    { apply (in_class_no_surrogate (fun _ => true)).
      apply in_class_of_ascii. }
    destruct Hs as [-> ->]. simpl.
    rewrite escape_of_ascii, of_string_app. reflexivity.
Qed.

Lemma lower_unit_of_ascii (c : ascii) :
  unreserved c = true ->
  UTF16.lower_unit (N_of_ascii c) = N_of_ascii (lower_char c).
Proof.
  destruct c as [[] [] [] [] [] [] [] []];
    intros H; try reflexivity; discriminate H.
Qed.

Lemma lower_ascii_of_string (s : string) :
  all unreserved s = true ->
  UTF16.lower_ascii (UTF16.of_string s) = UTF16.of_string (toLowerCase s).
Proof.
  induction s as [|c s IH]; [reflexivity|].
  simpl all. rewrite andb_true_iff. intros [Hc Hs].
  simpl toLowerCase. rewrite !of_string_cons. unfold UTF16.lower_ascii in *.
  simpl. rewrite lower_unit_of_ascii, IH by assumption. reflexivity.
Qed.

Lemma falsy_of_string (v : option string) :
  UTF16.falsy (option_map UTF16.of_string v) = falsy v.
Proof.
  destruct v as [[|c s]|]; reflexivity.
Qed.

Lemma str_of_string (v : option string) :
  UTF16.str (option_map UTF16.of_string v) = UTF16.of_string (str v).
Proof.
  destruct v; reflexivity.
Qed.

Lemma charAt0_of_string (s : string) :
  UTF16.charAt0 (UTF16.of_string s) = UTF16.of_string (charAt 0 s).
Proof.
  destruct s; reflexivity.
Qed.

Lemma lower_unit_fixed (c : ascii) :
  UTF16.lower_unit (N_of_ascii c) = N_of_ascii c -> upper_letter c = false.
Proof.
  destruct c as [[] [] [] [] [] [] [] []];
    intros H; try reflexivity; discriminate H.
Qed.

(** [name.charAt(0).match(/[a-z]/)] on a lower-case name of unreserved
    characters asks whether the first character is an ASCII letter. *)
Lemma first_letter_text (name : UTF16.text) :
  forallb (UTF16.in_class unreserved) name = true ->
  UTF16.eqb name (UTF16.lower_ascii name) = true ->
  UTF16.matches (Seq anything (Seq (Class (between "a" "z")) anything))
                (UTF16.charAt0 name) =
  match name with
  | u :: _ => UTF16.in_class ascii_letter u
  | [] => false
  end.
Proof.
  destruct name as [|u t]; [reflexivity|]. simpl forallb.
  rewrite andb_true_iff. intros [Hu _] Hlow.
  apply in_class_bound in Hu as [Hu _].
  rewrite <- (N_ascii_embedding u Hu) in *.
  set (c := ascii_of_N u) in *.
  change (UTF16.charAt0 (N_of_ascii c :: t))
    with (UTF16.of_string (String c "")).
  rewrite matches_of_string.
  change (matches (Seq anything (Seq (Class (between "a" "z")) anything))
                  (String c ""))
    with (search (Class (between "a" "z")) (String c "")).
  rewrite search_class_char, in_class_of_ascii.
  simpl in Hlow. apply andb_true_iff in Hlow as [Hlow _].
  apply N.eqb_eq in Hlow. symmetry in Hlow. apply lower_unit_fixed in Hlow.
  unfold ascii_letter, lower_letter. rewrite Hlow, orb_false_r. reflexivity.
Qed.

Section InputChecksOnText.

Variable toLowerCase_text : UTF16.text -> UTF16.text.

(** On a text of unreserved characters [toLowerCase] turns [A-Z] into
    [a-z] and keeps every other character. *)
Hypothesis toLowerCase_unreserved :
  forall t,
    forallb (UTF16.in_class unreserved) t = true ->
    toLowerCase_text t = UTF16.lower_ascii t.

(** When the presence check fails, or the name is well-formed, the checks
    return the error of the first of the six checks that fails. *)
Lemma signup_error_text_order (body : SignupBody) :
  UTF16.falsy (signup_name body) || UTF16.falsy (signup_email body)
  || UTF16.falsy (signup_password body) = true
  \/ UTF16.well_formed (UTF16.str (signup_name body)) = true ->
  signup_error_text toLowerCase_text body =
  normal (first_failing (signup_checks_text toLowerCase_text) body).
Proof.
  intros Hw. unfold signup_error_text.
  cbn [first_failing signup_checks_text].
  destruct (UTF16.falsy (signup_name body)),
    (UTF16.falsy (signup_email body)),
    (UTF16.falsy (signup_password body)); try reflexivity.
  cbn [negb andb orb] in *.
  destruct Hw as [Hw | Hw]; [discriminate|].
  destruct (UTF16.encodeURIComponent (UTF16.str (signup_name body)))
    as [encoded|] eqn:Henc.
  - destruct (UTF16.eqb (UTF16.str (signup_name body)) encoded) eqn:Heq;
      [|reflexivity].
    apply UTF16_eqb_eq in Heq. subst encoded.
    apply encodeURIComponent_text_fixed in Henc.
    cbn [negb]. rewrite (toLowerCase_unreserved _ Henc).
    destruct (UTF16.eqb (UTF16.str (signup_name body))
                        (UTF16.lower_ascii (UTF16.str (signup_name body))))
      eqn:Hlow; [|reflexivity].
    cbn [negb]. rewrite (first_letter_text _ Henc Hlow).
    destruct (match UTF16.str (signup_name body) with
              | u :: _ => UTF16.in_class ascii_letter u
              | [] => false
              end); [|reflexivity].
    destruct (UTF16.matches EMAIL_REGEXP (UTF16.str (signup_email body)));
      [|reflexivity].
    destruct (UTF16.falsy (signup_type body)); reflexivity.
  - exfalso.
    apply encodeURIComponent_throws_iff in Henc. congruence.
Qed.

(** When name, address and password are present and the name is not
    well-formed, [encodeURIComponent(name)] throws. *)
Lemma signup_error_text_throws (body : SignupBody) :
  UTF16.falsy (signup_name body) || UTF16.falsy (signup_email body)
  || UTF16.falsy (signup_password body) = false ->
  UTF16.well_formed (UTF16.str (signup_name body)) = false ->
  signup_error_text toLowerCase_text body = URIError_thrown.
Proof.
  intros Hpresent Hw. unfold signup_error_text. rewrite Hpresent.
  apply encodeURIComponent_throws_iff in Hw. rewrite Hw. reflexivity.
Qed.

(** On 8-bit text the checks are those of [signup_error], and never
    throw. *)
Lemma signup_error_text_8bit (req : Request) :
  signup_error_text toLowerCase_text (body_of req) =
  normal (signup_error_of req).
Proof.
  unfold signup_error_text, signup_error_of, signup_error, body_of.
  cbn [signup_name signup_email signup_password signup_type].
  rewrite !falsy_of_string, !str_of_string.
  destruct (falsy (body_name req) || falsy (body_email req)
            || falsy (body_password req)); [reflexivity|].
  rewrite encodeURIComponent_of_string, eqb_of_string.
  destruct (String.eqb (str (body_name req))
                       (encodeURIComponent (str (body_name req)))) eqn:Henc;
    [|reflexivity].
  cbn [negb]. apply String.eqb_eq in Henc. symmetry in Henc.
  apply encodeURIComponent_fixed in Henc.
  rewrite toLowerCase_unreserved
    by (rewrite forallb_of_string; exact Henc).
  rewrite (lower_ascii_of_string _ Henc), eqb_of_string.
  destruct (String.eqb (str (body_name req))
                       (toLowerCase (str (body_name req)))); [|reflexivity].
  cbn [negb]. rewrite charAt0_of_string, !matches_of_string.
  unfold search, email_match.
  destruct (matches (Seq anything (Seq (Class (between "a" "z")) anything))
                    (charAt 0 (str (body_name req)))); [|reflexivity].
  destruct (matches EMAIL_REGEXP (str (body_email req))); [|reflexivity].
  destruct (falsy (body_type req)); reflexivity.
Qed.

(** The handler goes on to its first lookup exactly when the checks find
    no error; an error is answered, and a thrown [URIError] ends the
    handler, before any call to the adapter. *)
Lemma postSignup_checks_outcome
      (config : Config) (body : SignupBody) (app_views : string) :
  match signup_error_text toLowerCase_text body with
  | URIError_thrown =>
      postSignup_checks toLowerCase_text config body app_views
      = throws_URIError
  | normal (Some e) =>
      postSignup_checks toLowerCase_text config body app_views
      = if rest config then answers_json 403 e
        else answers_view 403 (or_join (views_signup config) "get-signup")
                          "Sign up" e app_views
                          (signup_name body) (signup_email body)
  | normal None =>
      postSignup_checks toLowerCase_text config body app_views
      = finds_name (UTF16.str (signup_name body))
  end.
Proof.
  unfold postSignup_checks.
  destruct (signup_error_text toLowerCase_text body) as [[e|]|]; reflexivity.
Qed.

End InputChecksOnText.




